(** * tuneGUI: the parameter tree widget and the mission command publisher

    A shallow embedding of [tune_gui/parameter_tree_widget.py] and
    [tune_gui/mission_command_publisher.py], and the properties of the
    tree builder, the type categorizer, the edit handler, the refresh path
    and the command callback.

    Conventions.
    - Python values are the inductive [PyVal]; a [dict] is an association
      list in insertion order with string keys.
    - Python strings are [string]; [str.lower] is the ASCII lower-casing,
      which agrees with Python's on whether the lower-cased string is one of
      the ASCII words the code compares it with.
    - The conversions of the interpreter between text and numbers
      ([int(s)], [float(s)], [str(x)] of a float, [repr(s)] of a string) are
      the fields of the class [PyBuiltins]; [RefBuiltins] gives an executable
      instance for plain decimal literals.
    - A [QTreeWidgetItem] is a record in an arena indexed by creation order;
      every (column, role) the code reads or writes has its own field.
      Whether a write makes the toolkit raise [itemChanged] is the field
      [item_changed_raised] of the class [Toolkit]: the results hold for
      every such policy.
    - The editors of the item delegate are the inductive [Editor]; what
      seeding a spin box comes to ([int(value)], [float(value)] and the
      [setValue] of the toolkit) is the class [SpinSeeding]. *)

From Stdlib Require Import ZArith String Ascii List Bool Lia SpecFloat DecimalString.
From stdpp Require Import gmap strings list.

Import ListNotations.

Local Open Scope Z_scope.

(** ** Python strings *)

Definition ascii_lower (c : ascii) : ascii :=
  let n := N_of_ascii c in
  if ((65 <=? n) && (n <=? 90))%N then ascii_of_N (n + 32) else c.

(** [s.lower()] *)
Fixpoint lower (s : string) : string :=
  match s with
  | EmptyString => EmptyString
  | String c s' => String (ascii_lower c) (lower s')
  end.

Definition dot : ascii := "."%char.

(** [s.split('.')]: never empty; the segments hold no dot. *)
Fixpoint split_dot (s : string) : list string :=
  match s with
  | EmptyString => [EmptyString]
  | String c s' =>
      if Ascii.eqb c dot then EmptyString :: split_dot s'
      else match split_dot s' with
           | seg :: rest => String c seg :: rest
           | [] => [String c EmptyString]
           end
  end.

(** ['.'.join(parts)] *)
Definition join_dot (parts : list string) : string := String.concat "." parts.

(** [sub in s] on strings: [sub] occurs in [s] as a substring. *)
Fixpoint str_contains (sub s : string) : bool :=
  String.prefix sub s ||
  match s with
  | EmptyString => false
  | String _ s' => str_contains sub s'
  end.

(** [x in words] for a list literal of strings. *)
Definition in_words (x : string) (words : list string) : bool :=
  existsb (String.eqb x) words.

(** [str(n)] of an [int]. *)
Definition str_of_Z (n : Z) : string := NilZero.string_of_int (Z.to_int n).

(** ** Python values *)

#[warnings="-register-all"]
Inductive PyVal : Type :=
| PNone
| PBool (b : bool)
| PInt (n : Z)
| PFloat (x : spec_float)
| PStr (s : string)
| PList (l : list PyVal)
| PDict (d : list (string * PyVal)).

Abbreviation Dict := (list (string * PyVal)).

(** [type(v).__name__] *)
Definition type_name (v : PyVal) : string :=
  match v with
  | PNone => "NoneType"
  | PBool _ => "bool"
  | PInt _ => "int"
  | PFloat _ => "float"
  | PStr _ => "str"
  | PList _ => "list"
  | PDict _ => "dict"
  end.

(** [isinstance(v, dict)] *)
Definition is_dict (v : PyVal) : bool :=
  match v with PDict _ => true | _ => false end.

Inductive PyExn : Type :=
| TypeError | AttributeError | KeyError | ValueError | RecursionError.

Inductive Result (A : Type) : Type :=
| Ok (a : A)
| Raise (e : PyExn).
Arguments Ok {A} a.
Arguments Raise {A} e.

#[global] Instance Result_ret : MRet Result := fun A a => Ok a.
#[global] Instance Result_bind : MBind Result := fun A B f r =>
  match r with
  | Ok a => f a
  | Raise e => Raise e
  end.

(** The conversions of the interpreter between text and numbers. *)
Class PyBuiltins : Type := {
  (** [int(s)]: [None] stands for [ValueError] *)
  int_of_str : string -> option Z;
  (** [float(s)]: [None] stands for [ValueError] *)
  float_of_str : string -> option spec_float;
  (** [str(x)] of a float *)
  str_of_float : spec_float -> string;
  (** [repr(s)] of a string *)
  repr_of_str : string -> string
}.

Section Values.
Context `{!PyBuiltins}.

(** [repr(v)] *)
Fixpoint py_repr (v : PyVal) : string :=
  match v with
  | PNone => "None"
  | PBool true => "True"
  | PBool false => "False"
  | PInt n => str_of_Z n
  | PFloat x => str_of_float x
  | PStr s => repr_of_str s
  | PList l => "[" +:+ String.concat ", " (map py_repr l) +:+ "]"
  | PDict d =>
      "{" +:+ String.concat ", "
                (map (fun kv => match kv with
                                | (k, x) => repr_of_str k +:+ ": " +:+ py_repr x
                                end) d) +:+ "}"
  end.

(** [str(v)] *)
Definition py_str (v : PyVal) : string :=
  match v with
  | PStr s => s
  | _ => py_repr v
  end.
End Values.

(** ** Python dictionaries: association lists in insertion order *)

(** [d.get(k)], [None] when absent *)
Fixpoint dict_get (k : string) (d : Dict) : option PyVal :=
  match d with
  | [] => None
  | (k', v) :: d' => if String.eqb k k' then Some v else dict_get k d'
  end.

(** [k in d] *)
Definition dict_mem (k : string) (d : Dict) : bool :=
  match dict_get k d with Some _ => true | None => false end.

(** [d[k] = v]: an existing key keeps its place, a new one goes last. *)
Fixpoint dict_set (k : string) (v : PyVal) (d : Dict) : Dict :=
  match d with
  | [] => [(k, v)]
  | (k', v') :: d' =>
      if String.eqb k k' then (k, v) :: d' else (k', v') :: dict_set k v d'
  end.

(** [part not in current] *)
Definition py_not_in (part : string) (current : PyVal) : Result bool :=
  match current with
  | PDict d => Ok (negb (dict_mem part d))
  | PStr s => Ok (negb (str_contains part s))
  | PList l =>
      Ok (negb (existsb (fun x => match x with
                                  | PStr s => String.eqb part s
                                  | _ => false
                                  end) l))
  | _ => Raise TypeError
  end.

(** [current[key] = value] with a string key *)
Definition py_setitem (current : PyVal) (key : string) (value : PyVal)
  : Result PyVal :=
  match current with
  | PDict d => Ok (PDict (dict_set key value d))
  | _ => Raise TypeError
  end.

(** [current[key]] with a string key *)
Definition py_getitem (current : PyVal) (key : string) : Result PyVal :=
  match current with
  | PDict d =>
      match dict_get key d with
      | Some v => Ok v
      | None => Raise KeyError
      end
  | _ => Raise TypeError
  end.

(** [info.get(key, default)] *)
Definition py_get (info : PyVal) (key : string) (default : PyVal)
  : Result PyVal :=
  match info with
  | PDict d =>
      Ok (match dict_get key d with Some v => v | None => default end)
  | _ => Raise AttributeError
  end.

(** ** The type categorizer *)

Module Columns.
Definition NAME : nat := 0%nat.
Definition VALUE : nat := 1%nat.
Definition TYPE : nat := 2%nat.
End Columns.

Definition get_param_category (type_name : string) : string :=
  let type_name := lower type_name in
  if in_words type_name ["int"; "integer"; "int64"] then "int"
  else if in_words type_name ["float"; "double"] then "float"
  else if in_words type_name ["bool"; "boolean"] then "bool"
  else "str".

(** ** The tree widget: items and widget state *)

Definition Color : Type := (nat * nat * nat)%type.

(** A [QTreeWidgetItem], with one field for every slot the code reads or
    writes. *)
Record Item : Type := mkItem {
  item_parent : option nat;          (* parent item; [None] under the root *)
  item_name : string;                (* text(Columns.NAME) *)
  item_value : string;               (* text(Columns.VALUE) *)
  item_type : string;                (* text(Columns.TYPE) *)
  item_edit : PyVal;                 (* data(Columns.VALUE, EditRole) *)
  item_path : option string;         (* data(Columns.NAME, UserRole) *)
  item_editable : bool;              (* Qt.ItemIsEditable in flags() *)
  item_name_color : option Color;    (* foreground of Columns.NAME *)
  item_type_color : option Color     (* foreground of Columns.TYPE *)
}.

Definition fresh_item (parent : option nat) : Item :=
  mkItem parent EmptyString EmptyString EmptyString PNone None false None None.

Definition with_name (s : string) (it : Item) : Item :=
  mkItem (item_parent it) s (item_value it) (item_type it) (item_edit it)
         (item_path it) (item_editable it) (item_name_color it)
         (item_type_color it).
Definition with_value (s : string) (it : Item) : Item :=
  mkItem (item_parent it) (item_name it) s (item_type it) (item_edit it)
         (item_path it) (item_editable it) (item_name_color it)
         (item_type_color it).
Definition with_type (s : string) (it : Item) : Item :=
  mkItem (item_parent it) (item_name it) (item_value it) s (item_edit it)
         (item_path it) (item_editable it) (item_name_color it)
         (item_type_color it).
Definition with_edit (v : PyVal) (it : Item) : Item :=
  mkItem (item_parent it) (item_name it) (item_value it) (item_type it) v
         (item_path it) (item_editable it) (item_name_color it)
         (item_type_color it).
Definition with_path (p : string) (it : Item) : Item :=
  mkItem (item_parent it) (item_name it) (item_value it) (item_type it)
         (item_edit it) (Some p) (item_editable it) (item_name_color it)
         (item_type_color it).
Definition with_editable (it : Item) : Item :=
  mkItem (item_parent it) (item_name it) (item_value it) (item_type it)
         (item_edit it) (item_path it) true (item_name_color it)
         (item_type_color it).
Definition with_name_color (c : Color) (it : Item) : Item :=
  mkItem (item_parent it) (item_name it) (item_value it) (item_type it)
         (item_edit it) (item_path it) (item_editable it) (Some c)
         (item_type_color it).
Definition with_type_color (c : Color) (it : Item) : Item :=
  mkItem (item_parent it) (item_name it) (item_value it) (item_type it)
         (item_edit it) (item_path it) (item_editable it)
         (item_name_color it) (Some c).

(** [item.text(column)] *)
Definition item_text (it : Item) (column : nat) : string :=
  if (column =? Columns.NAME)%nat then item_name it
  else if (column =? Columns.VALUE)%nat then item_value it
  else if (column =? Columns.TYPE)%nat then item_type it
  else EmptyString.

(** the write behind [item.setText(column, text)] *)
Definition with_text (column : nat) (text : string) (it : Item) : Item :=
  if (column =? Columns.NAME)%nat then with_name text it
  else if (column =? Columns.VALUE)%nat then with_value text it
  else if (column =? Columns.TYPE)%nat then with_type text it
  else it.

(** the write behind [item.setForeground(column, color)] *)
Definition with_foreground (column : nat) (c : Color) (it : Item) : Item :=
  if (column =? Columns.NAME)%nat then with_name_color c it
  else if (column =? Columns.TYPE)%nat then with_type_color c it
  else it.

(** The state of a [ParameterTreeWidget]. *)
Record Widget : Type := mkWidget {
  items : list Item;                  (* the items, by creation order *)
  parameters : Dict;                  (* self.parameters *)
  param_to_item : gmap string nat;    (* self.param_to_item *)
  updating : bool;                    (* self.updating *)
  signals_blocked : bool;             (* self.signalsBlocked() *)
  emitted : list (string * PyVal)     (* parameter_changed events, oldest first *)
}.

(** [ParameterTreeWidget.__init__] *)
Definition init_widget : Widget := mkWidget [] [] ∅ false false [].

(** Whether the toolkit raises [itemChanged] for a write that takes an item
    from [before] to [after] in [column]. *)
Class Toolkit : Type := {
  item_changed_raised : Item -> Item -> nat -> bool
}.

(** Widget methods: state passing, with Python exceptions. *)
Definition Act (A : Type) : Type := Widget -> Widget * Result A.

#[global] Instance Act_ret : MRet Act := fun A a w => (w, Ok a).
#[global] Instance Act_bind : MBind Act := fun A B f m w =>
  match m w with
  | (w', Ok a) => f a w'
  | (w', Raise e) => (w', Raise e)
  end.

Definition lift {A : Type} (r : Result A) : Act A := fun w => (w, r).

Definition get_widget : Act Widget := fun w => (w, Ok w).

(** [for x in l: f(x)] *)
Definition for_each {A : Type} (f : A -> Act unit) : list A -> Act unit :=
  fix go (l : list A) : Act unit :=
    match l with
    | [] => mret tt
    | x :: l' => f x ;; go l'
    end.

(** [try: body finally: final] *)
Definition try_finally {A : Type} (body : Act A) (final : Act unit) : Act A :=
  fun w =>
    match body w with
    | (w', r) =>
        match final w' with
        | (w'', Ok _) => (w'', r)
        | (w'', Raise e) => (w'', Raise e)
        end
    end.

Definition the_item (w : Widget) (item : nat) : Item :=
  default (fresh_item None) (items w !! item).

Definition set_items (l : list Item) (w : Widget) : Widget :=
  mkWidget l (parameters w) (param_to_item w) (updating w)
           (signals_blocked w) (emitted w).
Definition set_parameters_field (d : Dict) (w : Widget) : Widget :=
  mkWidget (items w) d (param_to_item w) (updating w)
           (signals_blocked w) (emitted w).
Definition set_param_to_item (m : gmap string nat) (w : Widget) : Widget :=
  mkWidget (items w) (parameters w) m (updating w)
           (signals_blocked w) (emitted w).
Definition set_updating (b : bool) (w : Widget) : Widget :=
  mkWidget (items w) (parameters w) (param_to_item w) b
           (signals_blocked w) (emitted w).
Definition set_signals_blocked (b : bool) (w : Widget) : Widget :=
  mkWidget (items w) (parameters w) (param_to_item w) (updating w)
           b (emitted w).
Definition set_emitted (l : list (string * PyVal)) (w : Widget) : Widget :=
  mkWidget (items w) (parameters w) (param_to_item w) (updating w)
           (signals_blocked w) l.

Definition modify (f : Widget -> Widget) : Act unit := fun w => (f w, Ok tt).

(** [self.blockSignals(b)] *)
Definition blockSignals (b : bool) : Act unit := modify (set_signals_blocked b).

(** [self.parameter_changed.emit(path, value)]: a blocked widget emits
    nothing. *)
Definition emit_parameter_changed (path : string) (value : PyVal) : Act unit :=
  modify (fun w => if signals_blocked w then w
                   else set_emitted (emitted w ++ [(path, value)]) w).

(** [QTreeWidgetItem(parent or self)]: a new last child of [parent], or of the
    root. *)
Definition new_item (parent : option nat) : Act nat := fun w =>
  (set_items (items w ++ [fresh_item parent]) w, Ok (length (items w))).

(** The slot connected to [itemChanged]. *)
Definition Handler : Type := nat -> nat -> Act unit.

Section Widget.
Context `{!PyBuiltins} `{!Toolkit}.

(** A write to an item, and the [itemChanged] it may raise. *)
Definition write_item (slot : Handler) (item column : nat)
    (f : Item -> Item) : Act unit := fun w =>
  let before := the_item w item in
  let w' := set_items (alter f item (items w)) w in
  if item_changed_raised before (f before) column
     && negb (signals_blocked w')
  then slot item column w'
  else (w', Ok tt).

Definition setText (slot : Handler) (item column : nat) (text : string) :=
  write_item slot item column (with_text column text).
Definition setData_EditRole (slot : Handler) (item : nat) (value : PyVal) :=
  write_item slot item Columns.VALUE (with_edit value).
Definition setData_UserRole (slot : Handler) (item : nat) (path : string) :=
  write_item slot item Columns.NAME (with_path path).
Definition setFlags_editable (slot : Handler) (item : nat) :=
  write_item slot item Columns.NAME with_editable.
Definition setForeground (slot : Handler) (item column : nat) (c : Color) :=
  write_item slot item column (with_foreground column c).

(** The [try] block of [on_item_changed]: the typed value, or [None] for
    the [ValueError]. *)
Definition parse_value (category new_value_str : string) : option PyVal :=
  if String.eqb category "int" then PInt <$> int_of_str new_value_str
  else if String.eqb category "float" then
    PFloat <$> float_of_str new_value_str
  else if String.eqb category "bool" then
    let val_lower := lower new_value_str in
    if in_words val_lower ["true"; "1"; "yes"; "on"] then Some (PBool true)
    else if in_words val_lower ["false"; "0"; "no"; "off"] then
      Some (PBool false)
    else None
  else Some (PStr new_value_str).

(** [on_item_changed], with the slot its own writes reach as [self_slot]. *)
Definition on_item_changed_body (self_slot : Handler) (item column : nat)
  : Act unit :=
  w ← get_widget;
  if updating w || negb (column =? Columns.VALUE)%nat then mret tt
  else
    match item_path (the_item w item) with
    | None => mret tt
    | Some param_path =>
        if String.eqb param_path EmptyString then mret tt
        else
          let new_value_str := item_text (the_item w item) Columns.VALUE in
          let param_type := item_text (the_item w item) Columns.TYPE in
          let category := get_param_category param_type in
          match parse_value category new_value_str with
          | Some new_value => emit_parameter_changed param_path new_value
          | None =>
              prev_value ←
                match item_edit (the_item w item) with
                | PNone =>
                    if dict_mem param_path (parameters w) then
                      info ← lift (py_getitem (PDict (parameters w)) param_path);
                      lift (py_get info "value" PNone)
                    else mret PNone
                | cached => mret cached
                end;
              modify (set_updating true);;
              setText self_slot item Columns.VALUE (py_str prev_value);;
              modify (set_updating false)
          end
    end.

(** The slot calls itself through the signal; [depth] bounds the nesting
    of these calls. *)
Fixpoint on_item_changed_depth (depth : nat) : Handler :=
  match depth with
  | O => fun _ _ => lift (Raise RecursionError)
  | S d => on_item_changed_body (on_item_changed_depth d)
  end.

(** [ParameterTreeWidget.on_item_changed]: a nested call finds [updating]
    set and returns, so two levels are all that is ever used
    (see [on_item_changed_depth_stable]). *)
Definition on_item_changed : Handler := on_item_changed_depth 2.

(** The body of the loop of [update_parameter_values]. *)
Definition update_entry (entry : string * PyVal) : Act unit :=
  let (param_name, param_info) := entry in
  w ← get_widget;
  match param_to_item w !! param_name with
  | Some item =>
      new_value ← lift (py_get param_info "value" PNone);
      let current_value := item_text (the_item w item) Columns.VALUE in
      if negb (String.eqb (py_str new_value) current_value) then
        setText on_item_changed item Columns.VALUE (py_str new_value);;
        setData_EditRole on_item_changed item new_value
      else mret tt
  | None => mret tt
  end.

(** [ParameterTreeWidget.update_parameter_values] *)
Definition update_parameter_values (parameters : Dict) : Act unit :=
  modify (set_updating true);;
  for_each update_entry parameters;;
  modify (set_updating false).

Definition color_map (category : string) : option Color :=
  if String.eqb category "int" then Some (100, 200, 100)%nat
  else if String.eqb category "float" then Some (100, 150, 255)%nat
  else if String.eqb category "bool" then Some (255, 150, 100)%nat
  else if String.eqb category "str" then Some (200, 200, 100)%nat
  else None.

(** [ParameterTreeWidget._add_parameter_item] *)
Definition add_parameter_item (parent : option nat) (param_name : string)
    (param_info : PyVal) (full_path : option string) : Act unit :=
  item ← new_item parent;
  setText on_item_changed item Columns.NAME param_name;;
  value ← lift (py_get param_info "value" PNone);
  param_type ← lift (py_get param_info "type" (PStr (type_name value)));
  setText on_item_changed item Columns.VALUE (py_str value);;
  setData_EditRole on_item_changed item value;;
  setFlags_editable on_item_changed item;;
  type_text ← lift (match param_type with
                    | PStr s => Ok s
                    | _ => Raise TypeError
                    end);
  setText on_item_changed item Columns.TYPE type_text;;
  let path := match full_path with
              | Some p => if String.eqb p EmptyString then param_name else p
              | None => param_name
              end in
  setData_UserRole on_item_changed item path;;
  modify (fun w => set_param_to_item (<[path := item]> (param_to_item w)) w);;
  match color_map (get_param_category type_text) with
  | Some c => setForeground on_item_changed item Columns.TYPE c
  | None => mret tt
  end.

(** One turn of the loop of [_add_tree_structure], on the entry
    [key, value]. *)
Fixpoint add_tree_entry (parent : option nat) (path : list string)
    (key : string) (value : PyVal) {struct value} : Act unit :=
  let current_path := path ++ [key] in
  match value with
  | PDict structure =>
      item ← new_item parent;
      setText on_item_changed item Columns.NAME key;;
      setForeground on_item_changed item Columns.NAME (150, 150, 150)%nat;;
      for_each (fun entry : string * PyVal =>
                  match entry with
                  | (k, v) => add_tree_entry (Some item) current_path k v
                  end) structure
  | _ =>
      let param_path := join_dot current_path in
      let param_info :=
        PDict [("value", value); ("type", PStr (type_name value))] in
      add_parameter_item parent key param_info (Some param_path)
  end.

(** [ParameterTreeWidget._add_tree_structure] *)
Definition add_tree_structure (parent : option nat) (structure : Dict)
    (path : list string) : Act unit :=
  for_each (fun entry : string * PyVal =>
              match entry with
              | (k, v) => add_tree_entry parent path k v
              end) structure.

(** The inner loop and the final assignment of [_build_tree_from_paths]:
    walk [parts] down from [current], creating the missing groups, and set
    [leaf] at the end. The dictionaries are shared by reference in the
    source; here the changed child is written back into its parent. *)
Fixpoint insert_path (parts : list string) (leaf : string) (value : PyVal)
    (current : PyVal) : Result PyVal :=
  match parts with
  | [] => py_setitem current leaf value
  | part :: rest =>
      missing ← py_not_in part current;
      current1 ← (if (missing : bool)
                  then py_setitem current part (PDict [])
                  else Ok current);
      child ← py_getitem current1 part;
      child' ← insert_path rest leaf value child;
      py_setitem current1 part child'
  end.

(** The first loop of [_build_tree_from_paths]. *)
Fixpoint tree_structure_of (parameters : Dict) (tree_structure : PyVal)
  : Result PyVal :=
  match parameters with
  | [] => Ok tree_structure
  | (param_path, value) :: rest =>
      let parts := split_dot param_path in
      tree_structure' ←
        insert_path (removelast parts) (List.last parts EmptyString) value
                    tree_structure;
      tree_structure_of rest tree_structure'
  end.

(** [ParameterTreeWidget._build_tree_from_paths] *)
Definition build_tree_from_paths (parameters : Dict) : Act unit :=
  tree_structure ← lift (tree_structure_of parameters (PDict []));
  match tree_structure with
  | PDict structure => add_tree_structure None structure []
  | _ => lift (Raise AttributeError)
  end.

(** [ParameterTreeWidget._build_tree] *)
Definition build_tree (node_name : string) (parameters : Dict) : Act unit :=
  for_each (fun entry : string * PyVal =>
              add_parameter_item None (fst entry) (snd entry) None)
           parameters.

(** [self.clear(); self.parameters = parameters;
    self.param_to_item.clear()] *)
Definition reset_tree (parameters : Dict) : Act unit :=
  modify (set_items []);;
  modify (set_parameters_field parameters);;
  modify (set_param_to_item ∅).

(** [ParameterTreeWidget.set_parameters]; [expandAll] changes nothing that
    is modelled here. *)
Definition set_parameters (node_name : string) (parameters : Dict)
  : Act unit :=
  blockSignals true;;
  try_finally (reset_tree parameters;; build_tree node_name parameters)
              (blockSignals false).

(** [ParameterTreeWidget.set_yaml_parameters] *)
Definition set_yaml_parameters (parameters : Dict) : Act unit :=
  blockSignals true;;
  try_finally (reset_tree parameters;; build_tree_from_paths parameters)
              (blockSignals false).
End Widget.

(** ** An executable instance of the interpreter's conversions

    Decimal literals as [int] and [float] read them (surrounding white
    space, a sign, underscores between digits, a fraction, an exponent,
    [inf] and [nan]), rounded to binary64 to nearest-even, and the shortest
    decimal that reads back as the float for [str]. *)
Module RefBuiltins.

Definition is_space (c : ascii) : bool :=
  let n := N_of_ascii c in
  (((9 <=? n) && (n <=? 13)) || ((28 <=? n) && (n <=? 32)))%N.

Definition digit_of (c : ascii) : option Z :=
  let n := N_of_ascii c in
  if ((48 <=? n) && (n <=? 57))%N then Some (Z.of_N (n - 48)) else None.

Definition is_digit (c : ascii) : bool :=
  match digit_of c with Some _ => true | None => false end.

Fixpoint lstrip (s : string) : string :=
  match s with
  | String c s' => if is_space c then lstrip s' else s
  | EmptyString => EmptyString
  end.

Definition strip (s : string) : string :=
  String.rev (lstrip (String.rev (lstrip s))).

(** An underscore is legal only between two digits. *)
Fixpoint drop_underscores (prev_digit : bool) (s : string) : option string :=
  match s with
  | EmptyString => Some EmptyString
  | String c s' =>
      if Ascii.eqb c "_" then
        if prev_digit && match s' with
                         | String d _ => is_digit d
                         | EmptyString => false
                         end
        then drop_underscores false s'
        else None
      else String c <$> drop_underscores (is_digit c) s'
  end.

(** The leading digits of [s]: their value on top of [acc], their number on
    top of [n], and the rest. *)
Fixpoint read_digits (s : string) (acc n : Z) : Z * Z * string :=
  match s with
  | String c s' =>
      match digit_of c with
      | Some d => read_digits s' (10 * acc + d) (n + 1)
      | None => (acc, n, s)
      end
  | EmptyString => (acc, n, EmptyString)
  end.

Definition read_sign (s : string) : bool * string :=
  match s with
  | String c s' =>
      if Ascii.eqb c "-" then (true, s')
      else if Ascii.eqb c "+" then (false, s')
      else (false, s)
  | EmptyString => (false, s)
  end.

Definition int_of_str (s : string) : option Z :=
  s1 ← drop_underscores false (strip s);
  let (neg, s2) := read_sign s1 in
  let '(v, n, rest) := read_digits s2 0 0 in
  if (0 <? n) && String.eqb rest EmptyString then Some (if neg then - v else v)
  else None.

(** The binary64 nearest to [m * 10 ^ e10], for [0 <= m]. *)
Definition float_of_decimal (neg : bool) (m e10 : Z) : spec_float :=
  if m =? 0 then S754_zero neg
  else if 0 <=? e10 then
    binary_normalize 53 1024 ((if neg then - m else m) * 10 ^ e10) 0 neg
  else
    let '(q, e, l) := SFdiv_core_binary 53 1024 m 0 (10 ^ (- e10)) 0 in
    binary_round_aux 53 1024 neg q e l.

Definition read_exponent (s : string) : option Z :=
  match s with
  | EmptyString => Some 0
  | String c s' =>
      if Ascii.eqb c "e" || Ascii.eqb c "E" then
        let (neg, s2) := read_sign s' in
        let '(v, n, rest) := read_digits s2 0 0 in
        if (0 <? n) && String.eqb rest EmptyString then Some (if neg then - v else v)
        else None
      else None
  end.

Definition float_of_str (s : string) : option spec_float :=
  s1 ← drop_underscores false (strip s);
  let (neg, s2) := read_sign s1 in
  let word := lower s2 in
  if String.eqb word "inf" || String.eqb word "infinity" then
    Some (S754_infinity neg)
  else if String.eqb word "nan" then Some S754_nan
  else
    let '(i, ni, r1) := read_digits s2 0 0 in
    let '(m, nf, r2) :=
      match r1 with
      | String c r =>
          if Ascii.eqb c "." then read_digits r i 0 else (i, 0, r1)
      | EmptyString => (i, 0, r1)
      end in
    if 0 <? ni + nf then
      e ← read_exponent r2; Some (float_of_decimal neg m (e - nf))
    else None.

(** [x = num / den] for a finite positive float. *)
Definition ratio_of (m : positive) (e : Z) : Z * Z :=
  if 0 <=? e then (Zpos m * 2 ^ e, 1) else (Zpos m, 2 ^ (- e)).

(** [10 ^ k <= num / den] *)
Definition pow10_le (k num den : Z) : bool :=
  if 0 <=? k then 10 ^ k * den <=? num else den <=? num * 10 ^ (- k).

(** [floor (log10 (num / den))], from an estimate off by at most a few. *)
Definition floor_log10 (num den : Z) : Z :=
  let est := (Z.log2 num - Z.log2 den) * 30103 / 100000 - 2 in
  fold_left (fun k _ => if pow10_le (k + 1) num den then k + 1 else k)
            (seq 0 6) est.

(** [floor (num / den / 10 ^ k)] and whether the remainder is under, at or
    over one half. *)
Definition scaled (k num den : Z) : Z * comparison :=
  let (n, d) := if 0 <=? k then (num, den * 10 ^ k)
                else (num * 10 ^ (- k), den) in
  (n / d, (2 * (n mod d)) ?= d).

Fixpoint strip_zeros (fuel : nat) (d k : Z) : Z * Z :=
  match fuel with
  | O => (d, k)
  | S f => if (d mod 10 =? 0) && negb (d =? 0)
           then strip_zeros f (d / 10) (k + 1) else (d, k)
  end.

Definition SFsame (x y : spec_float) : bool :=
  match x, y with
  | S754_finite s m e, S754_finite s' m' e' =>
      Bool.eqb s s' && (m =? m')%positive && (e =? e')
  | _, _ => false
  end.

(** The shortest digits [d] and exponent [k] with [d * 10 ^ k] reading
    back as [x]; of two such, the nearer. *)
Definition shortest_digits (m : positive) (e : Z) : Z * Z :=
  let x := S754_finite false m e in
  let (num, den) := ratio_of m e in
  let k0 := floor_log10 num den in
  let try p :=
    let k := k0 - (p - 1) in
    let (lo, c) := scaled k num den in
    let first := match c with
                 | Lt => lo
                 | Gt => lo + 1
                 | Eq => if Z.even lo then lo else lo + 1
                 end in
    let second := if first =? lo then lo + 1 else lo in
    if SFsame (float_of_decimal false first k) x then Some (first, k)
    else if SFsame (float_of_decimal false second k) x then Some (second, k)
    else None in
  let found :=
    fold_left (fun acc p => match acc with
                            | Some r => Some r
                            | None => try (Z.of_nat p)
                            end) (seq 1 17) None in
  match found with
  | Some (d, k) => strip_zeros 20 d k
  | None => (Zpos m, e)
  end.

Fixpoint zeros (n : nat) : string :=
  match n with O => EmptyString | S k => String "0" (zeros k) end.

Definition str_of_float (x : spec_float) : string :=
  match x with
  | S754_zero s => if s then "-0.0" else "0.0"
  | S754_infinity s => if s then "-inf" else "inf"
  | S754_nan => "nan"
  | S754_finite s m e =>
      let (d, k) := shortest_digits m e in
      let digits := str_of_Z d in
      let n := Z.of_nat (String.length digits) in
      let decpt := n + k in
      let body :=
        if (decpt <=? -4) || (16 <? decpt) then
          let ex := decpt - 1 in
          let mant := match digits with
                      | String c EmptyString => digits
                      | String c rest => String c (String "." rest)
                      | EmptyString => digits
                      end in
          let ea := str_of_Z (Z.abs ex) in
          mant +:+ "e" +:+ (if ex <? 0 then "-" else "+")
               +:+ (if Z.abs ex <? 10 then "0" +:+ ea else ea)
        else if decpt <=? 0 then
          "0." +:+ zeros (Z.to_nat (- decpt)) +:+ digits
        else if n <=? decpt then
          digits +:+ zeros (Z.to_nat (decpt - n)) +:+ ".0"
        else
          substring 0 (Z.to_nat decpt) digits +:+ "."
            +:+ substring (Z.to_nat decpt) (Z.to_nat (n - decpt)) digits
      in
      if s then "-" +:+ body else body
  end.

Definition is_printable (c : ascii) : bool :=
  let n := N_of_ascii c in ((32 <=? n) && (n <? 127))%N.

Definition hex_digit (n : N) : ascii :=
  if (n <? 10)%N then ascii_of_N (48 + n) else ascii_of_N (87 + n).

Fixpoint escape (quote : ascii) (s : string) : string :=
  match s with
  | EmptyString => EmptyString
  | String c s' =>
      let rest := escape quote s' in
      if Ascii.eqb c quote || Ascii.eqb c "\" then String "\" (String c rest)
      else if Ascii.eqb c "010" then String "\" (String "n" rest)
      else if Ascii.eqb c "013" then String "\" (String "r" rest)
      else if Ascii.eqb c "009" then String "\" (String "t" rest)
      else if is_printable c then String c rest
      else let n := N_of_ascii c in
           String "\" (String "x" (String (hex_digit (n / 16))
                                          (String (hex_digit (n mod 16)) rest)))
  end.

Fixpoint has_char (c : ascii) (s : string) : bool :=
  match s with
  | EmptyString => false
  | String c' s' => Ascii.eqb c c' || has_char c s'
  end.

Definition dquote : ascii := ascii_of_N 34.

Definition repr_of_str (s : string) : string :=
  let quote : ascii :=
    if has_char "'" s && negb (has_char dquote s) then dquote else "'"%char in
  String quote (escape quote s) +:+ String quote EmptyString.

#[export] Instance builtins : PyBuiltins :=
  Build_PyBuiltins int_of_str float_of_str str_of_float repr_of_str.

(** The toolkit raises [itemChanged] for every write. *)
Definition every_write : Toolkit := Build_Toolkit (fun _ _ _ => true).
(** The toolkit raises [itemChanged] for no write. *)
Definition no_write : Toolkit := Build_Toolkit (fun _ _ _ => false).
End RefBuiltins.


(** ** The mission command publisher *)
Module MissionCommandPublisher.

(** The message type is [okmr_msgs]'s; only its [command] field is used. *)
Record MissionCommand : Type := mkMissionCommand { command : Z }.

(** The node: what [publisher_] has published, oldest first. *)
Record Node : Type := mkNode { published : list MissionCommand }.

Definition publish (msg : MissionCommand) (self : Node) : Node :=
  mkNode (published self ++ [msg]).

Section Callback.
(** the [command] of a fresh [MissionCommand()] *)
Variable default_command : Z.

(** [MissionCommandPublisher.sub_callback] *)
Definition sub_callback (self : Node) (msg : MissionCommand) : Node :=
  let msg := mkMissionCommand default_command in
  if command msg =? 1 then
    let msg := mkMissionCommand 2 in
    publish msg self
  else
    let msg := mkMissionCommand 1 in
    publish msg self.
End Callback.
End MissionCommandPublisher.


(** ** The item delegate

    The delegate is the one that [ParameterTreeWidget.__init__] installs:
    its parent is the tree widget, and the model of an index is the model
    of the tree. An index is an item and a column. *)

(** The editors that [createEditor] makes, with what the code reads and
    writes of them. *)
Inductive Editor : Type :=
| QSpinBox (value minimum maximum : Z)
| QDoubleSpinBox (value minimum maximum : spec_float) (decimals : nat)
| QWidget_QCheckBox (checked : bool)   (* a [QWidget] holding one [QCheckBox] *)
| QLineEdit (text : string).

Inductive EditorClass : Type :=
| QSpinBox_class | QDoubleSpinBox_class | QWidget_class | QLineEdit_class.

(** [isinstance(editor, cls)]: every editor is a [QWidget]. *)
Definition isinstance (editor : Editor) (cls : EditorClass) : bool :=
  match cls, editor with
  | QWidget_class, _ => true
  | QSpinBox_class, QSpinBox _ _ _ => true
  | QDoubleSpinBox_class, QDoubleSpinBox _ _ _ _ => true
  | QLineEdit_class, QLineEdit _ => true
  | _, _ => false
  end.

(** [editor.findChild(QCheckBox)], as the state of the box that is found *)
Definition findChild_QCheckBox (editor : Editor) : option bool :=
  match editor with
  | QWidget_QCheckBox checked => Some checked
  | _ => None
  end.

(** [editor.value()] of a spin box *)
Definition editor_value (editor : Editor) : PyVal :=
  match editor with
  | QSpinBox value _ _ => PInt value
  | QDoubleSpinBox value _ _ _ => PFloat value
  | _ => PNone
  end.

(** [editor.text()] of a line edit *)
Definition editor_text (editor : Editor) : string :=
  match editor with
  | QLineEdit text => text
  | _ => EmptyString
  end.

(** [checkbox.setChecked(is_checked)] on the box of the container *)
Definition setChecked (is_checked : bool) (editor : Editor) : Editor :=
  match editor with
  | QWidget_QCheckBox _ => QWidget_QCheckBox is_checked
  | _ => editor
  end.

(** [editor.setText(text)] *)
Definition editor_setText (text : string) (editor : Editor) : Editor :=
  match editor with
  | QLineEdit _ => QLineEdit text
  | _ => editor
  end.

(** What seeding a spin box comes to: [int(value)] or [float(value)] of an
    arbitrary object, the [setValue] of the toolkit with its bounds and
    rounding, and the [ValueError] and [TypeError] that the code swallows.
    The result is the editor afterwards, or an exception that gets
    through. *)
Class SpinSeeding : Type := {
  seed_QSpinBox : PyVal -> Editor -> Result Editor;
  seed_QDoubleSpinBox : PyVal -> Editor -> Result Editor
}.

Definition float_1e6 : spec_float := S754_finite false 8589934592000000 (-33).
Definition float_minus_1e6 : spec_float :=
  S754_finite true 8589934592000000 (-33).

Section Delegate.
Context `{!PyBuiltins} `{!Toolkit} `{!SpinSeeding}.

(** [ParameterItemDelegate.createEditor]; [None] stands for the editor of
    [QStyledItemDelegate]. A new spin box holds 0, a new check box is
    unchecked, a new line edit is empty. *)
Definition createEditor (w : Widget) (item column : nat) : option Editor :=
  if negb (column =? Columns.VALUE)%nat then None
  else
    match items w !! item with
    | None => None
    | Some it =>
        let param_type := item_text it Columns.TYPE in
        let category := get_param_category param_type in
        if String.eqb category "int" then
          Some (QSpinBox 0 (-2147483648) 2147483647)
        else if String.eqb category "float" then
          Some (QDoubleSpinBox (S754_zero false) float_minus_1e6 float_1e6
                               4%nat)
        else if String.eqb category "bool" then
          Some (QWidget_QCheckBox false)
        else Some (QLineEdit EmptyString)
    end.

(** [index.data(EditRole)], or [index.data(DisplayRole)] when that is
    [None] *)
Definition index_data (it : Item) : PyVal :=
  match item_edit it with
  | PNone => PStr (item_text it Columns.VALUE)
  | value => value
  end.

(** The branches of [setEditorData], once it has [value]. *)
Definition seed_editor (editor : Editor) (value : PyVal) : Result Editor :=
  if isinstance editor QSpinBox_class then seed_QSpinBox value editor
  else if isinstance editor QDoubleSpinBox_class then
    seed_QDoubleSpinBox value editor
  else if isinstance editor QWidget_class then
    match findChild_QCheckBox editor with
    | Some _ =>
        let is_checked :=
          in_words (lower (py_str value)) ["true"; "1"; "yes"; "on"] in
        Ok (setChecked is_checked editor)
    | None => Ok editor
    end
  else if isinstance editor QLineEdit_class then
    Ok (editor_setText (py_str value) editor)
  else Ok editor.

(** [ParameterItemDelegate.setEditorData]; [None] stands for the call of
    [QStyledItemDelegate]. *)
Definition setEditorData (w : Widget) (editor : Editor) (item column : nat)
  : option (Result Editor) :=
  if negb (column =? Columns.VALUE)%nat then None
  else Some (seed_editor editor (index_data (the_item w item))).

(** [value] and [str_value] of [setModelData]; [PNone] is the [None] that
    [value] starts with. *)
Definition model_values (editor : Editor) : PyVal * string :=
  if isinstance editor QSpinBox_class then
    let value := editor_value editor in (value, py_str value)
  else if isinstance editor QDoubleSpinBox_class then
    let value := editor_value editor in (value, py_str value)
  else if isinstance editor QWidget_class then
    match findChild_QCheckBox editor with
    | Some checked => let value := PBool checked in (value, py_str value)
    | None => (PNone, EmptyString)
    end
  else if isinstance editor QLineEdit_class then
    let value := PStr (editor_text editor) in (value, editor_text editor)
  else (PNone, EmptyString).

(** [ParameterItemDelegate.setModelData]; [None] stands for the call of
    [QStyledItemDelegate]. *)
Definition setModelData (editor : Editor) (item column : nat)
  : option (Act unit) :=
  if negb (column =? Columns.VALUE)%nat then None
  else
    Some (let (value, str_value) := model_values editor in
          match value with
          | PNone => mret tt
          | _ =>
              setData_EditRole on_item_changed item value;;
              setText on_item_changed item Columns.VALUE str_value
          end).
End Delegate.
(** * Notions used in the statements *)

(** ** The type categorizer *)

Definition int_aliases : list string := ["int"; "integer"; "int64"].
Definition float_aliases : list string := ["float"; "double"].
Definition bool_aliases : list string := ["bool"; "boolean"].

(** ** The refresh path, as a function on the items *)

Section RefreshSpec.
Context `{!PyBuiltins}.

(** What one entry of a refresh does to the item it is indexed to. *)
Definition refresh_item (new_value : PyVal) (it : Item) : Item :=
  if String.eqb (py_str new_value) (item_value it) then it
  else with_edit new_value (with_value (py_str new_value) it).

(** [info.get('value')] of an entry that is a dictionary *)
Definition value_entry (d : Dict) : PyVal :=
  match dict_get "value" d with Some v => v | None => PNone end.

(** The items after the loop of [update_parameter_values], and how the
    loop ends. *)
Fixpoint refresh_items (index : gmap string nat) (updates : Dict)
    (l : list Item) : list Item * Result unit :=
  match updates with
  | [] => (l, Ok tt)
  | (param_name, param_info) :: rest =>
      match index !! param_name with
      | Some item =>
          match param_info with
          | PDict d =>
              refresh_items index rest
                            (alter (refresh_item (value_entry d)) item l)
          | _ => (l, Raise AttributeError)
          end
      | None => refresh_items index rest l
      end
  end.

(** The values a refresh applies to the item [i], in order, up to the
    entry at which the loop stops. *)
Fixpoint values_for (index : gmap string nat) (updates : Dict) (i : nat)
  : list PyVal :=
  match updates with
  | [] => []
  | (param_name, param_info) :: rest =>
      match index !! param_name with
      | Some item =>
          match param_info with
          | PDict d =>
              if (item =? i)%nat
              then value_entry d :: values_for index rest i
              else values_for index rest i
          | _ => []
          end
      | None => values_for index rest i
      end
  end.

Definition refresh_all (values : list PyVal) (it : Item) : Item :=
  fold_left (fun it v => refresh_item v it) values it.

(** [self.updating] after the call: left set when the loop raised. *)
Definition updating_after (r : Result unit) : bool :=
  match r with Ok _ => false | Raise _ => true end.

(** Two items that differ at most in the displayed value and the cached
    value. *)
Definition same_node (a b : Item) : Prop :=
  item_parent a = item_parent b /\ item_name a = item_name b
  /\ item_type a = item_type b /\ item_path a = item_path b
  /\ item_editable a = item_editable b
  /\ item_name_color a = item_name_color b
  /\ item_type_color a = item_type_color b.
End RefreshSpec.

(** Whether the entry of a refresh names an indexed path. *)
Definition indexed (index : gmap string nat) (entry : string * PyVal) : bool :=
  match index !! entry.1 with Some _ => true | None => false end.

(** The leaves of the tree: the items that carry a parameter path. *)
Definition is_leaf (it : Item) : bool :=
  match item_path it with Some _ => true | None => false end.

Definition leaf_count (w : Widget) : nat :=
  length (filter (fun it => is_leaf it = true) (items w)).

(** ** Commits and rejections *)

Section CommitSpec.
Context `{!PyBuiltins}.

(** The value a rejected edit goes back to: the value cached on the leaf
    or, when none is cached, the [value] of the record that the snapshot
    holds for the path ([None] where the snapshot has no such path). It is
    undefined where the snapshot holds something else than a record. *)
Definition previous_accepted (w : Widget) (it : Item) (param_path : string)
  : option PyVal :=
  match item_edit it with
  | PNone =>
      match dict_get param_path (parameters w) with
      | Some (PDict d) => Some (value_entry d)
      | Some _ => None
      | None => Some PNone
      end
  | cached => Some cached
  end.

(** The value is of the Python type that the category stands for. *)
Definition typed_as (category : string) (v : PyVal) : Prop :=
  match v with
  | PInt _ => category = "int"
  | PFloat _ => category = "float"
  | PBool _ => category = "bool"
  | PStr _ => category = "str"
  | _ => False
  end.
End CommitSpec.

(** ** Example widgets, on the executable conversions and a toolkit that
    raises [itemChanged] for every write *)
Module Examples.
#[local] Existing Instance RefBuiltins.builtins.
#[local] Existing Instance RefBuiltins.every_write.

Definition float_1_5 : spec_float := S754_finite false 6755399441055744 (-52).
Definition float_2_75 : spec_float := S754_finite false 6192449487634432 (-51).

(** the state of item 0 with [text] typed into its value cell, at the time
    the slot runs *)
Definition typed_into (w : Widget) (text : string) : Widget :=
  set_items (alter (with_text Columns.VALUE text) 0%nat (items w)) w.

(** [{"speed": {"value": 1.5, "type": "float"}}] *)
Definition speed_widget : Widget :=
  (set_parameters "node"
     [("speed", PDict [("value", PFloat float_1_5); ("type", PStr "float")])]
     init_widget).1.


(** a parameter with the empty name, of type [str] and of type [bool] *)
Definition unnamed_str_widget : Widget :=
  (set_parameters "node"
     [(EmptyString, PDict [("value", PStr "a"); ("type", PStr "str")])]
     init_widget).1.


Definition commit (w : Widget) : Widget * Result unit :=
  on_item_changed 0%nat Columns.VALUE w.

Definition refresh (updates : Dict) (w : Widget) : Widget * Result unit :=
  update_parameter_values updates w.

Definition load_yaml (parameters : Dict) : Widget * Result unit :=
  set_yaml_parameters parameters init_widget.
End Examples.

(** ** Keys of a flat mapping *)

(** [q] starts with the segments of [p] and has more. *)
Definition proper_prefix (p q : list string) : Prop := p `prefix_of` q /\ p <> q.

#[global] Instance proper_prefix_dec : RelDecision proper_prefix.
Proof. intros p q. unfold proper_prefix. apply _. Defined.

(** No key of the mapping is, segment by segment, a proper prefix of another
    key. *)
Definition prefix_free (parameters : Dict) : Prop :=
  Forall (fun k1 =>
            Forall (fun k2 => ~ proper_prefix (split_dot k1) (split_dot k2))
                   parameters.*1)
         parameters.*1.

(** No value of the mapping is itself a dictionary. *)
Definition flat (parameters : Dict) : Prop :=
  Forall (fun kv : string * PyVal => is_dict kv.2 = false) parameters.

(** Some key is a proper prefix of a key that comes later in the mapping. *)
Definition prefix_before (parameters : Dict) : Prop :=
  exists (i j : nat) (k1 k2 : string) (v1 v2 : PyVal),
    (i < j)%nat /\ parameters !! i = Some (k1, v1)
    /\ parameters !! j = Some (k2, v2)
    /\ proper_prefix (split_dot k1) (split_dot k2).

(** Walking down [segments] from [tree] meets a value that is not a
    dictionary. *)
Inductive covered : PyVal -> list string -> Prop :=
| covered_here (d : Dict) (part : string) (rest : list string) (v : PyVal) :
    dict_get part d = Some v -> is_dict v = false ->
    covered (PDict d) (part :: rest)
| covered_below (d : Dict) (part : string) (rest : list string) (child : PyVal) :
    dict_get part d = Some child -> covered child rest ->
    covered (PDict d) (part :: rest).

#[global] Instance prefix_free_dec (parameters : Dict) :
  Decision (prefix_free parameters).
Proof. unfold prefix_free. apply _. Defined.

(** Every value of the tree that is not a dictionary sits at or below a key
    of [done]. *)
Definition guarded (done : list string) (tree : PyVal) : Prop :=
  forall s, covered tree s ->
            exists k, k ∈ done /\ split_dot k `prefix_of` s.

(** ** The tree that the builder makes *)



(** The nodes below the entry [key, value] of a structure at [path], each
    with its path, in the order in which [_add_tree_structure] visits
    them. *)
Fixpoint nodes_of (path : list string) (key : string) (value : PyVal)
  : list (list string * PyVal) :=
  (path ++ [key], value) ::
  match value with
  | PDict structure =>
      flat_map (fun entry : string * PyVal =>
                  match entry with
                  | (k, v) => nodes_of (path ++ [key]) k v
                  end) structure
  | _ => []
  end.

Definition nodes_in (path : list string) (structure : Dict)
  : list (list string * PyVal) :=
  flat_map (fun entry : string * PyVal =>
              match entry with
              | (k, v) => nodes_of path k v
              end) structure.

(** What a node shows as a leaf: its dotted path and its value. *)
Definition node_leaf (node : list string * PyVal) : option (string * PyVal) :=
  if is_dict node.2 then None else Some (join_dot node.1, node.2).

Definition item_leaf (it : Item) : option (string * PyVal) :=
  match item_path it with
  | Some p => Some (p, item_edit it)
  | None => None
  end.

(** The names on the way from the root to each item, read off the parent
    links; a parent is looked up among the items created before. *)
Definition node_path_step (acc : list (list string)) (it : Item)
  : list (list string) :=
  acc ++ [match item_parent it with
          | Some g => default [] (acc !! g)
          | None => []
          end ++ [item_name it]].

Definition node_paths (l : list Item) : list (list string) :=
  fold_left node_path_step l [].

(** The path that the items under [parent] continue. *)
Definition parent_path (l : list Item) (parent : option nat)
  : option (list string) :=
  match parent with
  | Some g => node_paths l !! g
  | None => Some []
  end.

(** Every parent was created before its children. *)
Definition parents_precede (l : list Item) : Prop :=
  forall (i : nat) (it : Item) (g : nat),
    l !! i = Some it -> item_parent it = Some g -> (g < i)%nat.

(** The leaves of the widget: path and cached value, in creation order. *)
Definition leaves (w : Widget) : Dict := omap item_leaf (items w).

(** The paths of the group items of the widget, in creation order. *)
Definition group_paths (w : Widget) : list (list string) :=
  omap (fun qi : list string * Item =>
          if is_leaf qi.2 then None else Some qi.1)
       (zip (node_paths (items w)) (items w)).

(** ** The items and nodes of a traversal *)

Section TraversalSpec.
Context `{!PyBuiltins} `{!Toolkit}.

Definition leaf_item (parent : option nat) (key : string) (value : PyVal)
    (full_path : string) : Item :=
  mkItem parent key (py_str value) (type_name value) value (Some full_path)
         true None (color_map (get_param_category (type_name value))).

Definition group_item (parent : option nat) (key : string) : Item :=
  mkItem parent key EmptyString EmptyString PNone None false
         (Some (150, 150, 150)%nat) None.

(** What a run of the traversal comes to, when it visits [nodes]. *)
Definition traversed (run : Act unit) (nodes : list (list string * PyVal))
    (w : Widget) : Prop :=
  exists (w' : Widget) (new : list Item),
    run w = (w', Ok tt)
    /\ items w' = items w ++ new
    /\ signals_blocked w' = true
    /\ parameters w' = parameters w
    /\ updating w' = updating w
    /\ emitted w' = emitted w
    /\ map item_leaf new = map node_leaf nodes
    /\ node_paths (items w') = node_paths (items w) ++ map fst nodes
    /\ parents_precede (items w').

Definition entry_traversed (value : PyVal) : Prop :=
  forall parent path key w,
    signals_blocked w = true ->
    parent_path (items w) parent = Some path ->
    parents_precede (items w) ->
    traversed (add_tree_entry parent path key value)
              (nodes_of path key value) w.





End TraversalSpec.

(** ** Loading: the items and the index that a loader leaves *)

(** The index that creating the items [new], the first at position [next],
    adds to [index]: each leaf under its path. *)
Fixpoint index_items (next : nat) (new : list Item) (index : gmap string nat)
  : gmap string nat :=
  match new with
  | [] => index
  | it :: rest =>
      index_items (S next) rest
                  (match item_path it with
                   | Some p => <[p := next]> index
                   | None => index
                   end)
  end.

Section LoadSpec.
Context `{!PyBuiltins}.

(** [param_info.get('type', type(value).__name__)] of a record *)
Definition info_type (d : Dict) : PyVal :=
  match dict_get "type" d with
  | Some t => t
  | None => PStr (type_name (value_entry d))
  end.

(** The path under which [_add_parameter_item] stores a leaf. *)
Definition stored_path (param_name : string) (full_path : option string)
  : string :=
  match full_path with
  | Some p => if String.eqb p EmptyString then param_name else p
  | None => param_name
  end.

(** The item that [_add_parameter_item] leaves in the tree, and how it
    ends: an item with a name only when [param_info] is no dictionary, one
    without type and path when the type is no string. *)
Definition parameter_item (parent : option nat) (param_name : string)
    (param_info : PyVal) (full_path : option string) : Item * Result unit :=
  let named := with_name param_name (fresh_item parent) in
  match param_info with
  | PDict d =>
      let value := value_entry d in
      let shown :=
        with_editable (with_edit value (with_value (py_str value) named)) in
      match info_type d with
      | PStr type_text =>
          (mkItem parent param_name (py_str value) type_text value
                  (Some (stored_path param_name full_path)) true None
                  (color_map (get_param_category type_text)), Ok tt)
      | _ => (shown, Raise TypeError)
      end
  | _ => (named, Raise AttributeError)
  end.

(** The items that the loop of [_build_tree] leaves, and how it ends. *)
Fixpoint load_items (parameters : Dict) : list Item * Result unit :=
  match parameters with
  | [] => ([], Ok tt)
  | (param_name, param_info) :: rest =>
      match parameter_item None param_name param_info None with
      | (it, Ok _) => (it :: (load_items rest).1, (load_items rest).2)
      | (it, Raise e) => ([it], Raise e)
      end
  end.

(** A record with a [type] that is a string, or with none. *)
Definition record_info (info : PyVal) : bool :=
  match info with
  | PDict d => match info_type d with PStr _ => true | _ => false end
  | _ => false
  end.

(** The item that [set_parameters] makes of an entry. *)
Definition param_leaf (entry : string * PyVal) : Item :=
  (parameter_item None entry.1 entry.2 None).1.

(** The record that [_add_tree_structure] makes of a value of a file. *)
Definition yaml_record (entry : string * PyVal) : string * PyVal :=
  (entry.1,
   PDict [("value", entry.2); ("type", PStr (type_name entry.2))]).

(** The exception that [_add_parameter_item] raises on an entry that is
    no record with a string for its type. *)
Definition load_error (info : PyVal) : PyExn :=
  if is_dict info then TypeError else AttributeError.
End LoadSpec.

(** The key is a single segment: it has no dot. *)
Definition dot_free (key : string) : Prop := split_dot key = [key].

#[global] Instance dot_free_dec (key : string) : Decision (dot_free key).
Proof. unfold dot_free. apply _. Defined.

Section BuildSpec.
Context `{!PyBuiltins} `{!Toolkit}.

(** The items that one turn of the loop of [_add_tree_structure] creates
    on the entry [key, value], the first of them at position [next]: a
    leaf, or a group followed by the items of its entries. *)
Fixpoint entry_items (parent : option nat) (path : list string) (next : nat)
    (key : string) (value : PyVal) {struct value} : list Item :=
  match value with
  | PDict structure =>
      group_item parent key ::
      (fix go (entries : Dict) (next' : nat) : list Item :=
         match entries with
         | [] => []
         | (k, v) :: rest =>
             let new := entry_items (Some next) (path ++ [key]) next' k v in
             new ++ go rest (next' + length new)%nat
         end) structure (S next)
  | _ => [leaf_item parent key value (join_dot (path ++ [key]))]
  end.

(** The items that [_add_tree_structure] creates on [structure]. *)
Fixpoint structure_items (parent : option nat) (path : list string)
    (next : nat) (structure : Dict) : list Item :=
  match structure with
  | [] => []
  | (k, v) :: rest =>
      let new := entry_items parent path next k v in
      new ++ structure_items parent path (next + length new)%nat rest
  end.

(** The widget after a run that appends [new]. *)
Definition extended (new : list Item) (w : Widget) : Widget :=
  mkWidget (items w ++ new) (parameters w)
           (index_items (length (items w)) new (param_to_item w))
           (updating w) (signals_blocked w) (emitted w).

Definition entry_runs (value : PyVal) : Prop :=
  forall parent path key w,
    signals_blocked w = true ->
    add_tree_entry parent path key value w
    = (extended (entry_items parent path (length (items w)) key value) w,
       Ok tt).

(** What [_add_tree_structure] makes of an item: a leaf shows the string
    form and the type of the value it caches and is editable; a group
    shows and caches nothing and is not editable. *)
Definition yaml_shaped (it : Item) : Prop :=
  match item_path it with
  | Some _ =>
      item_value it = py_str (item_edit it)
      /\ item_type it = type_name (item_edit it)
      /\ is_dict (item_edit it) = false
      /\ item_editable it = true
  | None =>
      item_value it = EmptyString /\ item_type it = EmptyString
      /\ item_edit it = PNone /\ item_editable it = false
  end.


(** The items of the tree that [set_yaml_parameters] shows. *)
Definition yaml_items (mapping : Dict) : list Item :=
  match tree_structure_of mapping (PDict []) with
  | Ok (PDict structure) => structure_items None [] 0 structure
  | _ => []
  end.

(** ** The edit handler as a function of the state it finds *)

Definition handler_outcome (item column : nat) (w : Widget)
  : Widget * Result unit :=
  let it := the_item w item in
  if updating w || negb (column =? Columns.VALUE)%nat then (w, Ok tt)
  else
    match item_path it with
    | None => (w, Ok tt)
    | Some param_path =>
        if String.eqb param_path EmptyString then (w, Ok tt)
        else
          match parse_value (get_param_category (item_type it))
                            (item_value it) with
          | Some new_value =>
              (if signals_blocked w then w
               else set_emitted (emitted w ++ [(param_path, new_value)]) w,
               Ok tt)
          | None =>
              match previous_accepted w it param_path with
              | Some prev =>
                  (set_items (alter (with_value (py_str prev)) item (items w))
                             w, Ok tt)
              | None => (w, Raise AttributeError)
              end
          end
    end.
End BuildSpec.

(** ** Editors *)

(** Two editors of the same class, with the same bounds: what the user
    changes in an editor is the value it holds. *)
Definition same_kind (a b : Editor) : Prop :=
  match a, b with
  | QSpinBox _ lo hi, QSpinBox _ lo' hi' => lo = lo' /\ hi = hi'
  | QDoubleSpinBox _ lo hi n, QDoubleSpinBox _ lo' hi' n' =>
      lo = lo' /\ hi = hi' /\ n = n'
  | QWidget_QCheckBox _, QWidget_QCheckBox _ => True
  | QLineEdit _, QLineEdit _ => True
  | _, _ => False
  end.

(** The text that the value reads back from, for the conversions of the
    interpreter: [int(str(n))] is [n] and [float(str(x))] is [x]. *)
Definition reads_back `{!PyBuiltins} (value : PyVal) : Prop :=
  match value with
  | PInt n => int_of_str (str_of_Z n) = Some n
  | PFloat x => float_of_str (str_of_float x) = Some x
  | _ => True
  end.

(** ** Messages received in a row *)

Definition receive_all (default_command : Z)
    (msgs : list MissionCommandPublisher.MissionCommand)
    (self : MissionCommandPublisher.Node) : MissionCommandPublisher.Node :=
  fold_left (MissionCommandPublisher.sub_callback default_command) msgs self.
(** * Properties *)

(** ** The type categorizer *)

Lemma in_words_In (x : string) (words : list string) :
  in_words x words = true <-> In x words.
Proof.
  unfold in_words. rewrite existsb_exists. split.
  - intros (y & Hy & Heq). apply String.eqb_eq in Heq. now subst.
  - intros Hin. exists x. split; [assumption | apply String.eqb_refl].
Qed.

Lemma in_words_not_In (x : string) (words : list string) :
  in_words x words = false <-> ~ In x words.
Proof.
  rewrite <- in_words_In. destruct (in_words x words); split; congruence.
Qed.

Lemma ascii_lower_idem (c : ascii) : ascii_lower (ascii_lower c) = ascii_lower c.
Proof.
  unfold ascii_lower.
  destruct ((65 <=? N_of_ascii c)%N && (N_of_ascii c <=? 90)%N) eqn:E.
  - apply andb_true_iff in E as [H1 H2].
    apply N.leb_le in H1, H2.
    rewrite N_ascii_embedding by lia.
    replace ((65 <=? N_of_ascii c + 32)%N && (N_of_ascii c + 32 <=? 90)%N)
      with false; [reflexivity |].
    symmetry. apply andb_false_iff. right. apply N.leb_gt. lia.
  - now rewrite E.
Qed.

Lemma lower_idem (s : string) : lower (lower s) = lower s.
Proof.
  induction s as [| c s IH]; simpl; [reflexivity |].
  now rewrite ascii_lower_idem, IH.
Qed.

Lemma get_param_category_cases (label : string) :
  (In (lower label) int_aliases -> get_param_category label = "int")
  /\ (In (lower label) float_aliases -> get_param_category label = "float")
  /\ (In (lower label) bool_aliases -> get_param_category label = "bool")
  /\ (~ In (lower label) (int_aliases ++ float_aliases ++ bool_aliases) ->
      get_param_category label = "str").
Proof.
  unfold get_param_category.
  fold int_aliases float_aliases bool_aliases.
  destruct (in_words (lower label) int_aliases) eqn:Ei;
    [| destruct (in_words (lower label) float_aliases) eqn:Ef;
       [| destruct (in_words (lower label) bool_aliases) eqn:Eb]].
  all: repeat match goal with
         | H : in_words _ _ = true |- _ => apply in_words_In in H
         | H : in_words _ _ = false |- _ => apply in_words_not_In in H
         end.
  all: repeat split; try reflexivity; intros Hin.
  all: exfalso; unfold int_aliases, float_aliases, bool_aliases in *;
    simpl in *; intuition congruence.
Qed.

Lemma get_param_category_range (label : string) :
  In (get_param_category label) ["int"; "float"; "bool"; "str"].
Proof.
  unfold get_param_category.
  repeat match goal with
         | |- context [if ?b then _ else _] => destruct b
         end; simpl; tauto.
Qed.

(** C5. [get_param_category] is total and case-insensitive: a label whose
    lower-cased form is [int], [integer] or [int64] is an integer, [float] or
    [double] a float, [bool] or [boolean] a boolean, and every other label a
    string; so [Int64], [DOUBLE] and [widget] give [int], [float] and
    [str]. *)
Theorem get_param_category_spec :
  (forall label : string,
      (In (lower label) int_aliases -> get_param_category label = "int")
      /\ (In (lower label) float_aliases -> get_param_category label = "float")
      /\ (In (lower label) bool_aliases -> get_param_category label = "bool")
      /\ (~ In (lower label) (int_aliases ++ float_aliases ++ bool_aliases) ->
          get_param_category label = "str")
      /\ In (get_param_category label) ["int"; "float"; "bool"; "str"]
      /\ get_param_category (lower label) = get_param_category label)
  /\ (forall a b : string,
         lower a = lower b -> get_param_category a = get_param_category b)
  /\ get_param_category "Int64" = "int"
  /\ get_param_category "DOUBLE" = "float"
  /\ get_param_category "widget" = "str".
Proof.
  split; [| split; [| repeat split]].
  - intros label.
    destruct (get_param_category_cases label) as (Hi & Hf & Hb & Hs).
    repeat split; try assumption.
    + apply get_param_category_range.
    + unfold get_param_category. now rewrite lower_idem.
  - intros a b Hab. unfold get_param_category. now rewrite Hab.
Qed.

Lemma get_param_category_witness :
  get_param_category "Boolean" = "bool"
  /\ get_param_category "INTEGER" = "int"
  /\ get_param_category "Double" = "float"
  /\ get_param_category "list" = "str"
  /\ get_param_category "FLOAT" = get_param_category "float".
Proof.
  pose proof get_param_category_spec as (Hall & Hcase & _).
  refine (conj _ (conj _ (conj _ (conj _ _)))).
  - destruct (Hall "Boolean") as (_ & _ & Hb & _). apply Hb. simpl. tauto.
  - destruct (Hall "INTEGER") as (Hi & _). apply Hi. simpl. tauto.
  - destruct (Hall "Double") as (_ & Hf & _). apply Hf. simpl. tauto.
  - destruct (Hall "list") as (_ & _ & _ & Hs & _). apply Hs. simpl.
    intuition discriminate.
  - apply Hcase. reflexivity.
Defined.

(** ** The mission command publisher *)

Import MissionCommandPublisher.

(** C3. Whatever the default [command] of the message type, the callback
    does not flip the received command: it cannot both answer 1 with 2 and
    2 with 1. With the default 0 it answers the command 1 with 1. *)
Theorem sub_callback_does_not_flip :
  (forall (default_command : Z) (self : Node),
      ~ (sub_callback default_command self (mkMissionCommand 1)
           = publish (mkMissionCommand 2) self
         /\ sub_callback default_command self (mkMissionCommand 2)
           = publish (mkMissionCommand 1) self))
  /\ published (sub_callback 0 (mkNode []) (mkMissionCommand 1))
     = [mkMissionCommand 1].
Proof.
  split; [| reflexivity].
  intros d self [H1 H2]. unfold sub_callback in *. simpl in *.
  destruct (d =? 1); unfold publish in *;
    [injection H2 as H2 | injection H1 as H1];
    match goal with
    | H : _ ++ _ = _ ++ _ |- _ => apply app_inv_head in H; discriminate
    end.
Qed.

(** C9. The message published by the callback does not depend on the
    message received: the received one is replaced by a fresh
    [MissionCommand] before its [command] is read, so the published command
    is 2 when the default of the type is 1 and 1 otherwise. *)
Theorem sub_callback_ignores_message :
  forall (default_command : Z) (self : Node) (m1 m2 : MissionCommand),
    sub_callback default_command self m1 = sub_callback default_command self m2
    /\ sub_callback default_command self m1
       = publish (mkMissionCommand (if default_command =? 1 then 2 else 1)) self.
Proof.
  intros d self m1 m2. unfold sub_callback. simpl.
  destruct (d =? 1); split; reflexivity.
Qed.

(** ** The edit handler and the refresh path *)

Ltac act_unfold :=
  unfold mbind, mret, Act_bind, Act_ret, lift, modify, get_widget in *.

Lemma set_items_same (w : Widget) : set_items (items w) w = w.
Proof. now destruct w. Qed.

Section HandlerFacts.
Context `{!PyBuiltins} `{!Toolkit}.

Lemma on_item_changed_body_updating self_slot item column w :
  updating w = true ->
  on_item_changed_body self_slot item column w = (w, Ok tt).
Proof.
  intros Hup. unfold on_item_changed_body. act_unfold.
  now rewrite Hup.
Qed.

Lemma on_item_changed_depth_updating depth item column w :
  updating w = true ->
  on_item_changed_depth (S depth) item column w = (w, Ok tt).
Proof. apply on_item_changed_body_updating. Qed.

(** A write under [updating] only changes the item: the slot, if it is
    called, returns at once. *)
Lemma write_item_updating depth item column f w :
  updating w = true ->
  write_item (on_item_changed_depth (S depth)) item column f w
  = (set_items (alter f item (items w)) w, Ok tt).
Proof.
  intros Hup. unfold write_item.
  destruct (_ && _); [| reflexivity].
  now apply on_item_changed_depth_updating.
Qed.

(** A write on a widget with blocked signals only changes the item. *)
Lemma write_item_blocked slot item column f w :
  signals_blocked w = true ->
  write_item slot item column f w
  = (set_items (alter f item (items w)) w, Ok tt).
Proof.
  intros Hb. unfold write_item. simpl. rewrite Hb.
  now rewrite andb_false_r.
Qed.



Lemma alter_refresh_same (v : PyVal) (item : nat) (w : Widget) :
  String.eqb (py_str v) (item_value (the_item w item)) = true ->
  alter (refresh_item v) item (items w) = items w.
Proof.
  intros Heq. rewrite <- (list_alter_id id (items w) item) at 2 by done.
  apply list_alter_ext; [| reflexivity].
  intros it Hit. unfold the_item in Heq. rewrite Hit in Heq. simpl in Heq.
  unfold refresh_item. now rewrite Heq.
Qed.

Lemma alter_refresh_changed (v : PyVal) (item : nat) (w : Widget) :
  String.eqb (py_str v) (item_value (the_item w item)) = false ->
  alter (refresh_item v) item (items w)
  = alter (with_edit v) item
          (alter (with_text Columns.VALUE (py_str v)) item (items w)).
Proof.
  intros Heq. rewrite list_alter_alter_eq.
  destruct (items w !! item) as [it |] eqn:Hit.
  - apply list_alter_ext; [| reflexivity].
    intros it' Hit'. unfold the_item in Heq. rewrite Hit in Heq.
    simpl in Heq. assert (it' = it) as -> by congruence.
    unfold refresh_item. now rewrite Heq.
  - transitivity (items w).
    + apply list_eq. intros j. destruct (decide (item = j)) as [<- |].
      * now rewrite list_lookup_alter_eq, Hit.
      * now rewrite list_lookup_alter_ne.
    + apply list_eq. intros j. destruct (decide (item = j)) as [<- |].
      * now rewrite list_lookup_alter_eq, Hit.
      * now rewrite list_lookup_alter_ne.
Qed.

Lemma update_entry_run param_name param_info w :
  updating w = true ->
  update_entry (param_name, param_info) w
  = match param_to_item w !! param_name with
    | Some item =>
        match param_info with
        | PDict d =>
            (set_items (alter (refresh_item (value_entry d)) item (items w)) w,
             Ok tt)
        | _ => (w, Raise AttributeError)
        end
    | None => (w, Ok tt)
    end.
Proof.
  intros Hup. unfold update_entry. 
  unfold mbind at 1. unfold Act_bind at 1. unfold get_widget at 1.
  destruct (param_to_item w !! param_name) as [item |]; [| reflexivity].
  destruct param_info as [| | | | | | d]; try reflexivity.
  unfold py_get. fold (value_entry d).
  unfold mbind at 1. unfold Act_bind at 1. unfold lift at 1.
  change (item_text ?it Columns.VALUE) with (item_value it).
  destruct (String.eqb (py_str (value_entry d)) (item_value (the_item w item))) eqn:Heq; cbn [negb].
  - unfold mret, Act_ret. rewrite alter_refresh_same by assumption.
    now rewrite set_items_same.
  - rewrite alter_refresh_changed by assumption.
    unfold mbind, Act_bind, setText, setData_EditRole, on_item_changed.
    rewrite write_item_updating by assumption.
    rewrite write_item_updating by assumption.
    reflexivity.
Qed.

Lemma refresh_loop (updates : Dict) :
  forall w,
    updating w = true ->
    for_each update_entry updates w
    = (set_items (refresh_items (param_to_item w) updates (items w)).1 w,
       (refresh_items (param_to_item w) updates (items w)).2).
Proof.
  induction updates as [| [param_name param_info] rest IH]; intros w Hup.
  - simpl. unfold mret, Act_ret. now rewrite set_items_same.
  - cbn [for_each]. unfold mbind at 1. unfold Act_bind at 1.
    rewrite update_entry_run by assumption. cbn [refresh_items].
    destruct (param_to_item w !! param_name) as [item |].
    + destruct param_info as [| | | | | | d];
        try (cbn; now rewrite set_items_same).
      rewrite IH by assumption. now destruct w.
    + now rewrite IH.
Qed.

(** [update_parameter_values] changes the items as [refresh_items] says,
    and nothing else but [updating]. *)
Lemma update_parameter_values_run (updates : Dict) (w : Widget) :
  let r := refresh_items (param_to_item w) updates (items w) in
  update_parameter_values updates w
  = (mkWidget r.1 (parameters w) (param_to_item w) (updating_after r.2)
              (signals_blocked w) (emitted w), r.2).
Proof.
  unfold update_parameter_values.
  unfold mbind at 1. unfold Act_bind at 1. unfold modify at 1.
  unfold mbind at 1. unfold Act_bind at 1.
  rewrite refresh_loop by reflexivity. simpl.
  destruct (refresh_items _ _ _) as [l [[] | e]]; reflexivity.
Qed.
End HandlerFacts.

Section RefreshFacts.
Context `{!PyBuiltins} `{!Toolkit}.

Lemma refresh_item_value (v : PyVal) (it : Item) :
  item_value (refresh_item v it) = py_str v.
Proof.
  unfold refresh_item.
  destruct (String.eqb (py_str v) (item_value it)) eqn:Heq; [| reflexivity].
  now apply String.eqb_eq in Heq.
Qed.

Lemma refresh_item_idem (v : PyVal) (it : Item) :
  refresh_item v (refresh_item v it) = refresh_item v it.
Proof.
  unfold refresh_item at 1. rewrite refresh_item_value.
  now rewrite String.eqb_refl.
Qed.

Lemma refresh_item_same_node (v : PyVal) (it : Item) :
  same_node it (refresh_item v it).
Proof.
  unfold refresh_item, same_node.
  destruct (String.eqb _ _); simpl; repeat split; reflexivity.
Qed.

Lemma same_node_refl (it : Item) : same_node it it.
Proof. unfold same_node. repeat split; reflexivity. Qed.

Lemma same_node_trans (a b c : Item) :
  same_node a b -> same_node b c -> same_node a c.
Proof. unfold same_node. intuition congruence. Qed.

Lemma refresh_all_same_node (vs : list PyVal) :
  forall it, same_node it (refresh_all vs it).
Proof.
  induction vs as [| v vs IH]; intros it; simpl.
  - apply same_node_refl.
  - eapply same_node_trans; [apply (refresh_item_same_node v) | apply IH].
Qed.

(** Two runs over the same values from items showing the same text end
    in the same item, unless neither run writes. *)
Lemma refresh_all_merge (vs : list PyVal) :
  forall a b,
    item_value a = item_value b ->
    same_node a b ->
    refresh_all vs a = refresh_all vs b
    \/ (refresh_all vs a = a /\ refresh_all vs b = b).
Proof.
  induction vs as [| v vs IH]; intros a b Hval Hnode.
  - now right.
  - unfold refresh_all. cbn [fold_left]. fold (refresh_all vs).
    destruct (String.eqb (py_str v) (item_value a)) eqn:Heq.
    + assert (Ha : refresh_item v a = a)
        by (unfold refresh_item; now rewrite Heq).
      assert (Hb : refresh_item v b = b)
        by (unfold refresh_item; rewrite <- Hval; now rewrite Heq).
      rewrite Ha, Hb. now apply IH.
    + left. f_equal. unfold refresh_item. rewrite <- Hval, Heq.
      destruct a, b. unfold same_node in Hnode.
      simpl in *. destruct Hnode as (-> & -> & -> & -> & -> & -> & ->).
      reflexivity.
Qed.

(** Applying the same values a second time changes nothing. *)
Lemma refresh_all_idem (vs : list PyVal) (it : Item) :
  refresh_all vs (refresh_all vs it) = refresh_all vs it.
Proof.
  destruct vs as [| v vs]; [reflexivity |].
  simpl. set (first := refresh_item v it).
  set (final := refresh_all vs first).
  destruct (refresh_all_merge vs first (refresh_item v final)) as [Heq | [Ha Hb]].
  - subst first. now rewrite !refresh_item_value.
  - eapply same_node_trans; [apply refresh_all_same_node |].
    apply refresh_item_same_node.
  - now rewrite <- Heq.
  - rewrite Hb. subst final. rewrite Ha. subst first.
    apply refresh_item_idem.
Qed.

Lemma refresh_all_unchanged (vs : list PyVal) (it : Item) :
  (forall v, v ∈ vs -> py_str v = item_value it) ->
  refresh_all vs it = it.
Proof.
  induction vs as [| v vs IH]; intros Hall; simpl; [reflexivity |].
  assert (Hv : refresh_item v it = it).
  { unfold refresh_item. rewrite (Hall v) by apply list_elem_of_here.
    now rewrite String.eqb_refl. }
  rewrite Hv. apply IH. intros v' Hin. apply Hall.
  now apply list_elem_of_further.
Qed.

(** How the loop ends depends on the entries and the index only. *)
Lemma refresh_items_status index (updates : Dict) :
  forall l l' : list Item,
    (refresh_items index updates l).2 = (refresh_items index updates l').2.
Proof.
  induction updates as [| [p info] rest IH]; intros l l'; simpl;
    [reflexivity |].
  destruct (index !! p) as [item |]; [| apply IH].
  destruct info; try reflexivity. apply IH.
Qed.

(** Item by item, the loop applies the values meant for the item. *)
Lemma refresh_items_lookup index (updates : Dict) (i : nat) :
  forall l : list Item,
    (refresh_items index updates l).1 !! i
    = refresh_all (values_for index updates i) <$> l !! i.
Proof.
  induction updates as [| [p info] rest IH]; intros l; simpl.
  - now destruct (l !! i).
  - destruct (index !! p) as [item |]; [| apply IH].
    destruct info as [| | | | | | d]; simpl; try (now destruct (l !! i)).
    rewrite IH. destruct (Nat.eqb_spec item i) as [-> | Hne].
    + rewrite list_lookup_alter_eq. now destruct (l !! i).
    + now rewrite list_lookup_alter_ne.
Qed.

Lemma refresh_items_length index (updates : Dict) :
  forall l : list Item,
    length (refresh_items index updates l).1 = length l.
Proof.
  induction updates as [| [p info] rest IH]; intros l; simpl;
    [reflexivity |].
  destruct (index !! p) as [item |]; [| apply IH].
  destruct info; try reflexivity. now rewrite IH, length_alter.
Qed.

Lemma values_for_elem index (updates : Dict) (i : nat) (v : PyVal) :
  v ∈ values_for index updates i ->
  exists p d, (p, PDict d) ∈ updates /\ index !! p = Some i
              /\ v = value_entry d.
Proof.
  induction updates as [| [p info] rest IH]; simpl; intros Hin.
  - now apply elem_of_nil in Hin.
  - assert (Hrest : v ∈ values_for index rest i ->
                    exists p0 d, (p0, PDict d) ∈ (p, info) :: rest
                                 /\ index !! p0 = Some i
                                 /\ v = value_entry d).
    { intros H'. destruct (IH H') as (p0 & d & Hp & Hidx & Hv).
      exists p0, d. split; [now apply list_elem_of_further | easy]. }
    destruct (index !! p) as [item |] eqn:Hidx; [| now apply Hrest].
    destruct info as [| | | | | | d];
      try (now apply elem_of_nil in Hin).
    destruct (Nat.eqb_spec item i) as [-> | Hne]; [| now apply Hrest].
    apply elem_of_cons in Hin as [-> | Hin]; [| now apply Hrest].
    exists p, d. split; [apply list_elem_of_here | easy].
Qed.

Lemma values_for_unindexed index (updates : Dict) (i : nat) :
  (forall p, p ∈ updates.*1 -> index !! p <> Some i) ->
  values_for index updates i = [].
Proof.
  induction updates as [| [p info] rest IH]; simpl; intros Hno;
    [reflexivity |].
  assert (Hrest : values_for index rest i = []).
  { apply IH. intros q Hq. apply Hno. now apply list_elem_of_further. }
  destruct (index !! p) as [item |] eqn:Hidx; [| exact Hrest].
  destruct info; try reflexivity.
  destruct (Nat.eqb_spec item i) as [-> | Hne]; [| exact Hrest].
  exfalso. apply (Hno p); [apply list_elem_of_here | exact Hidx].
Qed.

Lemma refresh_items_filter index (updates : Dict) :
  forall l : list Item,
    refresh_items index (List.filter (indexed index) updates) l
    = refresh_items index updates l.
Proof.
  induction updates as [| [p info] rest IH]; intros l; simpl;
    [reflexivity |].
  unfold indexed at 1. simpl.
  destruct (index !! p) as [item |] eqn:Hidx; [| apply IH].
  simpl. rewrite Hidx. destruct info; try reflexivity. apply IH.
Qed.

Lemma filter_leaf_same_node (l l' : list Item) :
  Forall2 same_node l l' ->
  length (filter (fun it => is_leaf it = true) l)
  = length (filter (fun it => is_leaf it = true) l').
Proof.
  induction 1 as [| a b l l' Hab _ IH]; [reflexivity |].
  assert (Hleaf : is_leaf a = is_leaf b).
  { unfold is_leaf. destruct Hab as (_ & _ & _ & -> & _). reflexivity. }
  rewrite !filter_cons. rewrite Hleaf.
  destruct (decide (is_leaf b = true)); simpl; now rewrite IH.
Qed.

Lemma refresh_items_same_node index (updates : Dict) (l : list Item) :
  Forall2 same_node l (refresh_items index updates l).1.
Proof.
  apply Forall2_same_length_lookup. split.
  - now rewrite refresh_items_length.
  - intros i a b Ha Hb. rewrite refresh_items_lookup, Ha in Hb.
    injection Hb as <-. apply refresh_all_same_node.
Qed.
End RefreshFacts.

(** ** The refresh path *)

(** C6. A call of [update_parameter_values] emits no [parameter_changed]
    event, whatever the update mapping, the state of the tree and the writes
    for which the toolkit raises [itemChanged]; the log of events only ever
    grows, so none is emitted at any point of the call. *)
Theorem update_parameter_values_emits_nothing `{!PyBuiltins} `{!Toolkit}
    (updates : Dict) (w : Widget) :
  emitted (update_parameter_values updates w).1 = emitted w.
Proof.
  pose proof (update_parameter_values_run updates w) as Hrun.
  cbv zeta in Hrun. rewrite Hrun.
  destruct (refresh_items (param_to_item w) updates (items w)) as [l r].
  reflexivity.
Qed.

(** C7. A refresh leaves alone every item whose displayed text already is
    the string form of each value supplied for it: neither the text nor the
    cached value changes; it emits no event; and a second refresh with the
    same mapping changes nothing more and ends as the first. *)
Theorem update_parameter_values_idempotent `{!PyBuiltins} `{!Toolkit}
    (updates : Dict) (w : Widget) :
  let w1 := (update_parameter_values updates w).1 in
  (forall (i : nat) (it : Item),
      items w !! i = Some it ->
      (forall p d, (p, PDict d) ∈ updates -> param_to_item w !! p = Some i ->
                   py_str (value_entry d) = item_value it) ->
      items w1 !! i = Some it)
  /\ emitted w1 = emitted w
  /\ update_parameter_values updates w1 = update_parameter_values updates w.
Proof.
  cbv zeta. rewrite !update_parameter_values_run. cbn [fst snd].
  cbn [param_to_item items parameters signals_blocked emitted].
  split; [| split; [reflexivity |]].
  - intros i it Hit Hsame. rewrite refresh_items_lookup, Hit. cbn.
    f_equal. apply refresh_all_unchanged. intros v Hv.
    apply values_for_elem in Hv as (p & d & Hin & Hidx & ->).
    now apply (Hsame p d).
  - set (l1 := (refresh_items (param_to_item w) updates (items w)).1).
    assert (Hitems : (refresh_items (param_to_item w) updates l1).1 = l1).
    { apply list_eq. intros i. subst l1. rewrite !refresh_items_lookup.
      destruct (items w !! i) as [it |]; [| reflexivity]. cbn.
      now rewrite refresh_all_idem. }
    rewrite Hitems.
    now rewrite (refresh_items_status _ updates l1 (items w)).
Qed.

(** C8. A refresh creates nothing: the index, the number of items and of
    leaves are as before; an item keeps its place in the tree, its name,
    type and path; an item to which no path of the mapping is indexed is
    untouched; and the entries whose path is not in the index can be left
    out of the mapping without any change to the outcome. *)
Theorem update_parameter_values_frame `{!PyBuiltins} `{!Toolkit}
    (updates : Dict) (w : Widget) :
  let w1 := (update_parameter_values updates w).1 in
  param_to_item w1 = param_to_item w
  /\ parameters w1 = parameters w
  /\ length (items w1) = length (items w)
  /\ leaf_count w1 = leaf_count w
  /\ Forall2 same_node (items w) (items w1)
  /\ (forall i : nat,
         (forall p, p ∈ updates.*1 -> param_to_item w !! p <> Some i) ->
         items w1 !! i = items w !! i)
  /\ update_parameter_values (List.filter (indexed (param_to_item w)) updates) w
     = update_parameter_values updates w.
Proof.
  cbv zeta. rewrite !update_parameter_values_run. cbn [fst snd].
  cbn [param_to_item items parameters]. unfold leaf_count.
  cbn [items].
  split; [reflexivity |]. split; [reflexivity |].
  split; [apply refresh_items_length |].
  split; [symmetry; apply filter_leaf_same_node, refresh_items_same_node |].
  split; [apply refresh_items_same_node |].
  split.
  - intros i Hno. rewrite refresh_items_lookup.
    rewrite values_for_unindexed by assumption.
    now destruct (items w !! i).
  - now rewrite refresh_items_filter.
Qed.

Lemma update_parameter_values_idempotent_witness :
  let updates := [("speed", PDict [("value", PFloat Examples.float_1_5)])] in
  items (Examples.refresh updates Examples.speed_widget).1 !! 0%nat
  = items Examples.speed_widget !! 0%nat.
Proof.
  cbv zeta.
  refine (proj1 (@update_parameter_values_idempotent
                   RefBuiltins.builtins RefBuiltins.every_write
                   [("speed", PDict [("value", PFloat Examples.float_1_5)])]
                   Examples.speed_widget) 0%nat _ _ _).
  - reflexivity.
  - intros p d Hin _. apply list_elem_of_singleton in Hin.
    injection Hin as -> ->. reflexivity.
Defined.

Lemma update_parameter_values_frame_witness :
  let updates := [("ghost", PDict [("value", PInt 1)])] in
  items (Examples.refresh updates Examples.speed_widget).1 !! 0%nat
  = items Examples.speed_widget !! 0%nat
  /\ leaf_count (Examples.refresh updates Examples.speed_widget).1
     = leaf_count Examples.speed_widget.
Proof.
  cbv zeta.
  pose proof (@update_parameter_values_frame
                RefBuiltins.builtins RefBuiltins.every_write
                [("ghost", PDict [("value", PInt 1)])]
                Examples.speed_widget) as (_ & _ & _ & Hcount & _ & Hother & _).
  split; [| exact Hcount].
  apply Hother. intros p Hin. apply list_elem_of_singleton in Hin. subst p.
  vm_compute. discriminate.
Defined.

(** ** Commits and rejections *)

Section CommitFacts.
Context `{!PyBuiltins} `{!Toolkit}.

Lemma the_item_lookup (w : Widget) (item : nat) (it : Item) :
  items w !! item = Some it -> the_item w item = it.
Proof. intros Hit. unfold the_item. now rewrite Hit. Qed.



End CommitFacts.


(** The scenario as a whole: the value cell of [speed] is written with
    2.75 through the toolkit, which raises [itemChanged]. *)
Example speed_scenario :
  emitted (@setText RefBuiltins.every_write
             (@on_item_changed RefBuiltins.builtins RefBuiltins.every_write)
             0%nat Columns.VALUE "2.75" Examples.speed_widget).1
  = [("speed", PFloat Examples.float_2_75)].
Proof. vm_compute. reflexivity. Qed.




(** ** The structure built from dotted paths *)

Lemma dict_get_set_eq (k : string) (v : PyVal) (d : Dict) :
  dict_get k (dict_set k v d) = Some v.
Proof.
  induction d as [| [k' v'] d IH]; simpl.
  - now rewrite String.eqb_refl.
  - destruct (String.eqb k k') eqn:E; simpl; rewrite ?E, ?String.eqb_refl; auto.
Qed.

Lemma dict_get_set_ne (k k' : string) (v : PyVal) (d : Dict) :
  k <> k' -> dict_get k' (dict_set k v d) = dict_get k' d.
Proof.
  intros Hne. induction d as [| [k0 v0] d IH]; simpl.
  - destruct (String.eqb_spec k' k); [congruence | reflexivity].
  - destruct (String.eqb_spec k k0) as [-> | Hk]; simpl.
    + destruct (String.eqb_spec k' k0); [congruence | reflexivity].
    + destruct (String.eqb_spec k' k0); [reflexivity | exact IH].
Qed.

Lemma covered_app (tree : PyVal) (s r : list string) :
  covered tree s -> covered tree (s ++ r).
Proof.
  induction 1 as [d part rest v Hget Hv | d part rest child Hget _ IH].
  - now apply covered_here with v.
  - now apply covered_below with child.
Qed.

Lemma covered_prefix (tree : PyVal) (s t : list string) :
  s `prefix_of` t -> covered tree s -> covered tree t.
Proof. intros [r ->]. apply covered_app. Qed.


Lemma insert_path_not_dict parts leaf value current :
  is_dict current = false ->
  insert_path parts leaf value current = Raise TypeError.
Proof.
  intros Hnd. destruct parts as [| part rest]; simpl.
  - destruct current; try reflexivity. discriminate.
  - destruct current; try reflexivity; try discriminate.
    + simpl. destruct (negb _); reflexivity.
    + simpl. destruct (negb _); reflexivity.
Qed.

(** The first step of the walk, on a dictionary. *)
Lemma insert_path_step part rest leaf value d :
  insert_path (part :: rest) leaf value (PDict d)
  = match dict_get part d with
    | Some child =>
        child' ← insert_path rest leaf value child;
        Ok (PDict (dict_set part child' d))
    | None =>
        child' ← insert_path rest leaf value (PDict []);
        Ok (PDict (dict_set part child' (dict_set part (PDict []) d)))
    end.
Proof.
  cbn [insert_path]. unfold py_not_in, dict_mem.
  destruct (dict_get part d) as [child |] eqn:Hget; cbn.
  - rewrite Hget. reflexivity.
  - rewrite dict_get_set_eq. reflexivity.
Qed.

Lemma dict_set_set (k : string) (v v' : PyVal) (d : Dict) :
  dict_set k v' (dict_set k v d) = dict_set k v' d.
Proof.
  induction d as [| [k0 v0] d IH]; simpl.
  - now rewrite String.eqb_refl.
  - destruct (String.eqb k k0) eqn:E; simpl; rewrite ?E, ?String.eqb_refl;
      [reflexivity | now rewrite IH].
Qed.

Lemma insert_path_raises parts leaf value :
  forall current e,
    insert_path parts leaf value current = Raise e -> e = TypeError.
Proof.
  induction parts as [| part rest IH]; intros current e.
  - destruct current; simpl; congruence.
  - destruct current as [| | | | | | d];
      try (rewrite insert_path_not_dict by reflexivity; congruence).
    rewrite insert_path_step.
    destruct (dict_get part d) as [child |].
    + destruct (insert_path rest leaf value child) eqn:E; cbn; [discriminate |].
      intros [= <-]. eapply IH, E.
    + destruct (insert_path rest leaf value (PDict [])) eqn:E; cbn;
        [discriminate |].
      intros [= <-]. eapply IH, E.
Qed.

Lemma insert_path_dict parts leaf value :
  forall current tree',
    insert_path parts leaf value current = Ok tree' -> is_dict tree' = true.
Proof.
  destruct parts as [| part rest]; intros current tree'.
  - destruct current; simpl; try discriminate. now intros [= <-].
  - destruct current as [| | | | | | d];
      try (rewrite insert_path_not_dict by reflexivity; discriminate).
    rewrite insert_path_step.
    destruct (dict_get part d) as [child |].
    + destruct (insert_path rest leaf value child); cbn; [| discriminate].
      now intros [= <-].
    + destruct (insert_path rest leaf value (PDict [])); cbn; [| discriminate].
      now intros [= <-].
Qed.

Lemma insert_path_covered_raises parts leaf value tree :
  covered tree parts -> insert_path parts leaf value tree = Raise TypeError.
Proof.
  induction 1 as [d part rest v Hget Hv | d part rest child Hget _ IH].
  - rewrite insert_path_step, Hget.
    now rewrite insert_path_not_dict.
  - rewrite insert_path_step, Hget. now rewrite IH.
Qed.

Lemma insert_path_keeps_covered parts leaf value :
  is_dict value = false ->
  forall tree tree' s,
    insert_path parts leaf value tree = Ok tree' ->
    covered tree s -> covered tree' s.
Proof.
  intros Hflat. induction parts as [| part rest IH]; intros tree tree' s Hins Hcov.
  - destruct Hcov as [d p r v Hget Hv | d p r child Hget Hc];
      simpl in Hins; injection Hins as <-.
    + destruct (String.eqb_spec leaf p) as [-> | Hne].
      * apply covered_here with value; [apply dict_get_set_eq | exact Hflat].
      * apply covered_here with v; [| exact Hv].
        now rewrite dict_get_set_ne.
    + destruct (String.eqb_spec leaf p) as [-> | Hne].
      * apply covered_here with value; [apply dict_get_set_eq | exact Hflat].
      * apply covered_below with child; [| exact Hc].
        now rewrite dict_get_set_ne.
  - destruct Hcov as [d p r v Hget Hv | d p r child Hget Hc];
      rewrite insert_path_step in Hins.
    + destruct (String.eqb_spec part p) as [-> | Hne].
      * rewrite Hget in Hins. rewrite insert_path_not_dict in Hins by exact Hv.
        discriminate.
      * assert (Hkeep : forall c d0, dict_get p d0 = Some v ->
                  covered (PDict (dict_set part c d0)) (p :: r)).
        { intros c d0 Hd0. apply covered_here with v; [| exact Hv].
          now rewrite dict_get_set_ne. }
        destruct (dict_get part d);
          destruct (insert_path rest leaf value _); cbn in Hins;
          try discriminate; injection Hins as <-; apply Hkeep; try exact Hget.
        now rewrite dict_get_set_ne.
    + destruct (String.eqb_spec part p) as [-> | Hne].
      * rewrite Hget in Hins.
        destruct (insert_path rest leaf value child) as [child' |] eqn:E;
          cbn in Hins; [| discriminate].
        injection Hins as <-.
        apply covered_below with child'; [apply dict_get_set_eq |].
        eapply IH; eassumption.
      * assert (Hkeep : forall c d0, dict_get p d0 = Some child ->
                  covered (PDict (dict_set part c d0)) (p :: r)).
        { intros c d0 Hd0. apply covered_below with child; [| exact Hc].
          now rewrite dict_get_set_ne. }
        destruct (dict_get part d);
          destruct (insert_path rest leaf value _); cbn in Hins;
          try discriminate; injection Hins as <-; apply Hkeep; try exact Hget.
        now rewrite dict_get_set_ne.
Qed.

Lemma insert_path_covers parts leaf value :
  is_dict value = false ->
  forall tree tree',
    insert_path parts leaf value tree = Ok tree' ->
    covered tree' (parts ++ [leaf]).
Proof.
  intros Hflat. induction parts as [| part rest IH]; intros tree tree' Hins.
  - destruct tree; simpl in Hins; try discriminate. injection Hins as <-.
    apply covered_here with value; [apply dict_get_set_eq | exact Hflat].
  - destruct tree as [| | | | | | d];
      try (rewrite insert_path_not_dict in Hins by reflexivity; discriminate).
    rewrite insert_path_step in Hins.
    destruct (dict_get part d) as [child |];
      destruct (insert_path rest leaf value _) as [child' |] eqn:E;
      cbn in Hins; try discriminate; injection Hins as <-;
      (apply covered_below with child'; [apply dict_get_set_eq |]);
      eapply IH; eassumption.
Qed.

Lemma split_dot_nonempty (k : string) : split_dot k <> [].
Proof.
  destruct k as [| c k]; simpl; [discriminate |].
  destruct (Ascii.eqb c dot); [discriminate |].
  destruct (split_dot k); discriminate.
Qed.

Lemma split_dot_parts (k : string) :
  removelast (split_dot k) ++ [List.last (split_dot k) EmptyString] = split_dot k.
Proof. symmetry. apply app_removelast_last, split_dot_nonempty. Qed.

Lemma proper_prefix_removelast (p q : list string) :
  proper_prefix p q -> p `prefix_of` removelast q.
Proof.
  intros [[r ->] Hne]. destruct r as [| x r] using rev_ind.
  - now rewrite app_nil_r in Hne.
  - rewrite app_assoc, removelast_last. now exists r.
Qed.

Lemma prefix_removelast_proper (p q : list string) :
  q <> [] -> p `prefix_of` removelast q -> proper_prefix p q.
Proof.
  intros Hq [r Hr]. rewrite (app_removelast_last EmptyString Hq). rewrite Hr.
  split.
  - exists (r ++ [List.last q EmptyString]). now rewrite app_assoc.
  - intros Heq. apply (f_equal length) in Heq.
    rewrite !length_app in Heq. simpl in Heq. lia.
Qed.


Lemma tree_structure_of_raises (l : Dict) :
  forall tree e, tree_structure_of l tree = Raise e -> e = TypeError.
Proof.
  induction l as [| [k v] l IH]; intros tree e; simpl; [discriminate |].
  destruct (insert_path _ _ _ _) as [tree' |] eqn:E; cbn.
  - apply IH.
  - intros [= <-]. eapply insert_path_raises, E.
Qed.

Lemma tree_structure_of_covered_raises (l : Dict) :
  flat l ->
  forall tree j k2 v2,
    l !! j = Some (k2, v2) ->
    covered tree (removelast (split_dot k2)) ->
    tree_structure_of l tree = Raise TypeError.
Proof.
  induction 1 as [| [k v] l Hv _ IH]; intros tree j k2 v2 Hj Hcov.
  - discriminate.
  - simpl. destruct j as [| j]; simpl in Hj.
    + injection Hj as -> ->.
      now rewrite insert_path_covered_raises.
    + destruct (insert_path _ _ _ _) as [tree' |] eqn:E; cbn.
      * apply (IH tree' j k2 v2 Hj).
        eapply insert_path_keeps_covered; eassumption.
      * f_equal. eapply insert_path_raises, E.
Qed.

Lemma tree_structure_of_conflict (l : Dict) :
  flat l -> prefix_before l ->
  forall tree, tree_structure_of l tree = Raise TypeError.
Proof.
  induction 1 as [| [k v] l Hv Hl IH];
    intros (i & j & k1 & k2 & v1 & v2 & Hij & Hi & Hj & Hpre) tree.
  - discriminate.
  - simpl. destruct (insert_path _ _ _ _) as [tree' |] eqn:E; cbn;
      [| f_equal; eapply insert_path_raises, E].
    destruct j as [| j]; [lia |]. simpl in Hj.
    destruct i as [| i]; simpl in Hi.
    + injection Hi as -> ->.
      apply (tree_structure_of_covered_raises l Hl tree' j k2 v2 Hj).
      apply covered_prefix with (split_dot k1);
        [now apply proper_prefix_removelast |].
      rewrite <- split_dot_parts.
      eapply insert_path_covers; eassumption.
    + apply IH. exists i, j, k1, k2, v1, v2. repeat split; try assumption.
      * lia.
      * apply Hpre.
      * apply Hpre.
Qed.

Lemma insert_path_ok parts leaf value :
  forall d,
    ~ covered (PDict d) parts ->
    exists d', insert_path parts leaf value (PDict d) = Ok (PDict d').
Proof.
  induction parts as [| part rest IH]; intros d Hnc.
  - simpl. eauto.
  - rewrite insert_path_step.
    destruct (dict_get part d) as [child |] eqn:Hget.
    + destruct child as [| | | | | | c];
        try (exfalso; apply Hnc; eapply covered_here; [exact Hget | reflexivity]).
      destruct (IH c) as [c' Hc'].
      { intros Hc. apply Hnc. eapply covered_below; eassumption. }
      rewrite Hc'. cbn. eauto.
    + destruct (IH []) as [c' Hc'].
      { intros Hc. inversion Hc; discriminate. }
      rewrite Hc'. cbn. eauto.
Qed.

Lemma insert_path_new_covered parts leaf value :
  forall tree tree' s,
    insert_path parts leaf value tree = Ok tree' ->
    covered tree' s ->
    covered tree s \/ (parts ++ [leaf]) `prefix_of` s.
Proof.
  induction parts as [| part rest IH]; intros tree tree' s Hins Hcov.
  - destruct tree as [| | | | | | d]; simpl in Hins; try discriminate.
    injection Hins as <-.
    inversion Hcov as [d0 p r v Hget Hv | d0 p r child Hget Hc]; subst.
    + destruct (String.eqb_spec leaf p) as [-> | Hne].
      * right. now exists r.
      * left. rewrite dict_get_set_ne in Hget by assumption.
        eapply covered_here; eassumption.
    + destruct (String.eqb_spec leaf p) as [-> | Hne].
      * right. now exists r.
      * left. rewrite dict_get_set_ne in Hget by assumption.
        eapply covered_below; eassumption.
  - destruct tree as [| | | | | | d];
      try (rewrite insert_path_not_dict in Hins by reflexivity; discriminate).
    rewrite insert_path_step in Hins.
    destruct (dict_get part d) as [child |] eqn:Hpart.
    + destruct (insert_path rest leaf value child) as [child' |] eqn:E;
        cbn in Hins; [| discriminate].
      injection Hins as <-.
      inversion Hcov as [d0 p r v Hget Hv | d0 p r c Hget Hc]; subst.
      * destruct (String.eqb_spec part p) as [-> | Hne].
        -- rewrite dict_get_set_eq in Hget. injection Hget as <-.
           apply insert_path_dict in E. congruence.
        -- left. rewrite dict_get_set_ne in Hget by assumption.
           eapply covered_here; eassumption.
      * destruct (String.eqb_spec part p) as [-> | Hne].
        -- rewrite dict_get_set_eq in Hget. injection Hget as <-.
           destruct (IH _ _ _ E Hc) as [Hold | [t ->]].
           ++ left. eapply covered_below; eassumption.
           ++ right. exists t. now rewrite <- !app_assoc.
        -- left. rewrite dict_get_set_ne in Hget by assumption.
           eapply covered_below; eassumption.
    + destruct (insert_path rest leaf value (PDict [])) as [child' |] eqn:E;
        cbn in Hins; [| discriminate].
      injection Hins as <-. rewrite dict_set_set in Hcov.
      inversion Hcov as [d0 p r v Hget Hv | d0 p r c Hget Hc]; subst.
      * destruct (String.eqb_spec part p) as [-> | Hne].
        -- rewrite dict_get_set_eq in Hget. injection Hget as <-.
           apply insert_path_dict in E. congruence.
        -- left. rewrite dict_get_set_ne in Hget by assumption.
           eapply covered_here; eassumption.
      * destruct (String.eqb_spec part p) as [-> | Hne].
        -- rewrite dict_get_set_eq in Hget. injection Hget as <-.
           destruct (IH _ _ _ E Hc) as [Hold | [t ->]].
           ++ inversion Hold; discriminate.
           ++ right. exists t. now rewrite <- !app_assoc.
        -- left. rewrite dict_get_set_ne in Hget by assumption.
           eapply covered_below; eassumption.
Qed.

Lemma tree_structure_of_ok (l : Dict) :
  forall (done : list string) (d : Dict),
    guarded done (PDict d) ->
    (forall k k', k ∈ done ++ l.*1 -> k' ∈ l.*1 ->
                  ~ proper_prefix (split_dot k) (split_dot k')) ->
    exists d', tree_structure_of l (PDict d) = Ok (PDict d')
               /\ guarded (done ++ l.*1) (PDict d').
Proof.
  induction l as [| [k v] l IH]; intros done d Hg Hfree.
  - exists d. split; [reflexivity |]. simpl. now rewrite app_nil_r.
  - simpl. destruct (insert_path_ok (removelast (split_dot k))
                       (List.last (split_dot k) EmptyString) v d) as [d1 Hd1].
    { intros Hcov. destruct (Hg _ Hcov) as (k0 & Hk0 & Hpre).
      apply (Hfree k0 k).
      - apply elem_of_app. now left.
      - simpl. apply list_elem_of_here.
      - apply prefix_removelast_proper; [apply split_dot_nonempty | exact Hpre]. }
    rewrite Hd1. cbn.
    destruct (IH (done ++ [k]) d1) as (d' & Hd' & Hg').
    + intros s Hcov.
      destruct (insert_path_new_covered _ _ _ _ _ _ Hd1 Hcov) as [Hold | Hnew].
      * destruct (Hg _ Hold) as (k0 & Hk0 & Hpre).
        exists k0. split; [apply elem_of_app; now left | exact Hpre].
      * rewrite split_dot_parts in Hnew.
        exists k. split; [| exact Hnew].
        apply elem_of_app. right. apply list_elem_of_here.
    + intros k0 k' Hk0 Hk'. apply Hfree.
      * rewrite <- app_assoc in Hk0. exact Hk0.
      * simpl. now apply list_elem_of_further.
    + exists d'. split; [exact Hd' |].
      simpl. rewrite <- app_assoc in Hg'. exact Hg'.
Qed.

(** ** The traversal and the tree it builds *)

Section TreeFacts.
Context `{!PyBuiltins} `{!Toolkit}.

Lemma PyVal_nested_ind (P : PyVal -> Prop) :
(forall v, is_dict v = false -> P v) ->
(forall d, Forall (fun kv => P kv.2) d -> P (PDict d)) ->
forall v, P v.
Proof.
intros Hleaf Hdict. fix IH 1. intros v.
destruct v as [| | | | | | d]; try (apply Hleaf; reflexivity).
apply Hdict. induction d as [| [k x] d IHd]; constructor.
- apply IH.
- exact IHd.
Qed.

Lemma alter_last (f : Item -> Item) (l : list Item) (x : Item) :
alter f (length l) (l ++ [x]) = l ++ [f x].
Proof.
replace (length l) with (length l + 0)%nat by lia.
now rewrite alter_app_r.
Qed.

Lemma node_paths_snoc (l : list Item) (it : Item) :
node_paths (l ++ [it]) = node_path_step (node_paths l) it.
Proof. unfold node_paths. now rewrite fold_left_app. Qed.

Lemma node_paths_length (l : list Item) : length (node_paths l) = length l.
Proof.
induction l as [| it l IH] using rev_ind; [reflexivity |].
rewrite node_paths_snoc. unfold node_path_step.
rewrite !length_app. simpl. now rewrite IH.
Qed.

Lemma node_paths_app (l l' : list Item) :
exists extra, node_paths (l ++ l') = node_paths l ++ extra.
Proof.
induction l' as [| it l' [extra IH]] using rev_ind.
- exists []. now rewrite !app_nil_r.
- rewrite app_assoc, node_paths_snoc, IH. unfold node_path_step.
  eexists. now rewrite <- app_assoc.
Qed.

Lemma parent_path_app (l l' : list Item) (parent : option nat) (path : list string) :
parent_path l parent = Some path -> parent_path (l ++ l') parent = Some path.
Proof.
destruct parent as [g |]; simpl; [| trivial].
intros Hg. destruct (node_paths_app l l') as [extra ->].
now apply lookup_app_l_Some.
Qed.

Lemma parents_precede_snoc (l : list Item) (it : Item) :
parents_precede l ->
(forall g, item_parent it = Some g -> (g < length l)%nat) ->
parents_precede (l ++ [it]).
Proof.
intros Hl Hit i x g Hi Hg.
apply lookup_app_Some in Hi as [Hi | [Hlen Hi]].
- eapply Hl; eassumption.
- apply list_lookup_singleton_Some in Hi as [Hi <-].
  specialize (Hit g Hg). lia.
Qed.

Lemma join_dot_snoc_empty (path : list string) (key : string) :
join_dot (path ++ [key]) = EmptyString -> key = EmptyString.
Proof.
unfold join_dot. induction path as [| p path IH]; simpl; [trivial |].
destruct (path ++ [key]) as [| x rest] eqn:E.
- now destruct path.
- destruct p; simpl; discriminate.
Qed.

Lemma add_parameter_item_leaf parent key value full_path w :
  signals_blocked w = true ->
  (full_path = EmptyString -> key = EmptyString) ->
  add_parameter_item parent key
    (PDict [("value", value); ("type", PStr (type_name value))])
    (Some full_path) w
  = (mkWidget (items w ++ [leaf_item parent key value full_path])
              (parameters w)
              (<[full_path := length (items w)]> (param_to_item w))
              (updating w) true (emitted w), Ok tt).
Proof.
  intros Hb Hfull. destruct w as [l params idx upd blk em].
  cbn in Hb. subst blk.
  assert (Hpath : (if String.eqb full_path EmptyString then key else full_path)
                  = full_path).
  { destruct (String.eqb_spec full_path EmptyString) as [-> |]; auto. }
  unfold add_parameter_item.
  unfold mbind at 1. unfold Act_bind at 1. unfold new_item at 1.
  cbn [items set_items].
  repeat (unfold mbind at 1; unfold Act_bind at 1;
          first [ unfold setText at 1 | unfold setData_EditRole at 1
                | unfold setFlags_editable at 1 | unfold setData_UserRole at 1
                | unfold lift at 1 | unfold modify at 1 ];
          rewrite ?write_item_blocked by reflexivity;
          cbn [items set_items py_get dict_get String.eqb Ascii.eqb Bool.eqb
               param_to_item set_param_to_item];
          rewrite ?alter_last).
  rewrite Hpath. unfold leaf_item.
  destruct (color_map (get_param_category (type_name value))) as [c |].
  - unfold setForeground. rewrite write_item_blocked by reflexivity.
    cbn [items set_items set_param_to_item]. rewrite alter_last. reflexivity.
  - reflexivity.
Qed.

Lemma new_group_run parent key w :
  signals_blocked w = true ->
  (item ← new_item parent;
   setText on_item_changed item Columns.NAME key;;
   setForeground on_item_changed item Columns.NAME (150, 150, 150)%nat;;
   mret item) w
  = (set_items (items w ++ [group_item parent key]) w, Ok (length (items w))).
Proof.
  intros Hb. destruct w as [l params idx upd blk em].
  cbn in Hb. subst blk.
  unfold mbind at 1. unfold Act_bind at 1. unfold new_item at 1.
  cbn [items set_items].
  unfold mbind at 1. unfold Act_bind at 1. unfold setText at 1.
  rewrite write_item_blocked by reflexivity.
  cbn [items set_items]. rewrite alter_last.
  unfold mbind at 1. unfold Act_bind at 1. unfold setForeground at 1.
  rewrite write_item_blocked by reflexivity.
  cbn [items set_items]. rewrite alter_last.
  reflexivity.
Qed.

Lemma add_tree_entry_leaf parent path key value w :
  is_dict value = false ->
  add_tree_entry parent path key value w
  = add_parameter_item parent key
      (PDict [("value", value); ("type", PStr (type_name value))])
      (Some (join_dot (path ++ [key]))) w.
Proof. destruct value; intros Hd; try reflexivity. discriminate. Qed.

Lemma add_tree_entry_dict parent path key d w :
  signals_blocked w = true ->
  add_tree_entry parent path key (PDict d) w
  = for_each (fun entry : string * PyVal =>
                match entry with
                | (k, v) =>
                    add_tree_entry (Some (length (items w))) (path ++ [key]) k v
                end) d
             (set_items (items w ++ [group_item parent key]) w).
Proof.
  intros Hb. destruct w as [l params idx upd blk em].
  cbn in Hb. subst blk. cbn [add_tree_entry].
  unfold mbind at 1. unfold Act_bind at 1. unfold new_item at 1.
  cbn [items set_items].
  unfold mbind at 1. unfold Act_bind at 1. unfold setText at 1.
  rewrite write_item_blocked by reflexivity.
  cbn [items set_items]. rewrite alter_last.
  unfold mbind at 1. unfold Act_bind at 1. unfold setForeground at 1.
  rewrite write_item_blocked by reflexivity.
  cbn [items set_items]. rewrite alter_last.
  reflexivity.
Qed.

Lemma nodes_of_leaf path key value :
  is_dict value = false -> nodes_of path key value = [(path ++ [key], value)].
Proof. destruct value; intros Hd; try reflexivity. discriminate. Qed.

Lemma node_paths_new (l : list Item) (it : Item) (path : list string) :
  parent_path l (item_parent it) = Some path ->
  node_paths (l ++ [it]) = node_paths l ++ [path ++ [item_name it]].
Proof.
  intros Hp. rewrite node_paths_snoc. unfold node_path_step.
  unfold parent_path in Hp. destruct (item_parent it) as [g |].
  - now rewrite Hp.
  - now injection Hp as <-.
Qed.

Lemma parent_path_lt (l : list Item) (parent : option nat) (path : list string) :
  parent_path l parent = Some path ->
  forall g, parent = Some g -> (g < length l)%nat.
Proof.
  intros Hp g ->. simpl in Hp. apply lookup_lt_Some in Hp.
  now rewrite node_paths_length in Hp.
Qed.

Lemma structure_traversed (structure : Dict) :
  Forall (fun kv => entry_traversed kv.2) structure ->
  forall parent path w,
    signals_blocked w = true ->
    parent_path (items w) parent = Some path ->
    parents_precede (items w) ->
    traversed (for_each (fun entry : string * PyVal =>
                           match entry with
                           | (k, v) => add_tree_entry parent path k v
                           end) structure)
              (nodes_in path structure) w.
Proof.
  induction 1 as [| [k v] structure Hv _ IH]; intros parent path w Hb Hp Hpre.
  - exists w, []. cbn. rewrite !app_nil_r. repeat split; auto.
  - destruct (Hv parent path k w Hb Hp Hpre)
      as (w1 & new1 & Hrun1 & Hit1 & Hb1 & Hpar1 & Hup1 & Hem1 & Hleaf1
          & Hpaths1 & Hpre1).
    destruct (IH parent path w1 Hb1) as
      (w2 & new2 & Hrun2 & Hit2 & Hb2 & Hpar2 & Hup2 & Hem2 & Hleaf2
       & Hpaths2 & Hpre2).
    { rewrite Hit1. now apply parent_path_app. }
    { exact Hpre1. }
    exists w2, (new1 ++ new2). cbn [for_each nodes_in flat_map].
    unfold mbind at 1. unfold Act_bind at 1. cbn [fst snd] in *.
    rewrite Hrun1. fold (nodes_in path structure).
    repeat split; try congruence.
    + rewrite Hit2, Hit1. now rewrite app_assoc.
    + rewrite !map_app. congruence.
    + rewrite Hpaths2, Hpaths1, map_app. now rewrite app_assoc.
    + exact Hpre2.
Qed.

Lemma add_tree_entry_traversed (value : PyVal) : entry_traversed value.
Proof.
  induction value as [value Hleaf | d IH] using PyVal_nested_ind;
    intros parent path key w Hb Hp Hpre.
  - rewrite nodes_of_leaf by assumption.
    eexists _, [leaf_item parent key value (join_dot (path ++ [key]))].
    split.
    { rewrite add_tree_entry_leaf by assumption.
      apply add_parameter_item_leaf; [exact Hb |].
      apply join_dot_snoc_empty. }
    cbn [items parameters updating signals_blocked emitted].
    repeat split.
    + cbn. unfold node_leaf. cbn. now rewrite Hleaf.
    + now apply node_paths_new.
    + apply parents_precede_snoc; [exact Hpre |].
      cbn. eapply parent_path_lt; eassumption.
  - set (w1 := set_items (items w ++ [group_item parent key]) w).
    assert (Hpaths1 : node_paths (items w1)
                      = node_paths (items w) ++ [path ++ [key]]).
    { unfold w1. cbn [items set_items]. now apply node_paths_new. }
    destruct (structure_traversed d IH (Some (length (items w)))
                (path ++ [key]) w1)
      as (w2 & new2 & Hrun2 & Hit2 & Hb2 & Hpar2 & Hup2 & Hem2 & Hleaf2
          & Hpaths2 & Hpre2).
    { exact Hb. }
    { cbn [parent_path]. rewrite Hpaths1.
      rewrite lookup_app_r by (rewrite node_paths_length; lia).
      rewrite node_paths_length, Nat.sub_diag. reflexivity. }
    { unfold w1. cbn [items set_items].
      apply parents_precede_snoc; [exact Hpre |].
      cbn. eapply parent_path_lt; eassumption. }
    exists w2, (group_item parent key :: new2).
    split; [now rewrite add_tree_entry_dict |].
    cbn [nodes_of]. fold (nodes_in (path ++ [key]) d).
    unfold w1 in *. cbn [items set_items parameters updating emitted] in *.
    repeat split; try congruence.
    + rewrite Hit2. now rewrite <- app_assoc.
    + cbn [map]. now rewrite Hleaf2.
    + rewrite Hpaths2, Hpaths1. cbn [map fst]. now rewrite <- app_assoc.
    + exact Hpre2.
Qed.


(** The whole build, from any widget with blocked signals. *)
Lemma build_tree_from_paths_run (parameters : Dict) (structure : Dict) w :
  tree_structure_of parameters (PDict []) = Ok (PDict structure) ->
  signals_blocked w = true ->
  items w = [] ->
  exists w',
    build_tree_from_paths parameters w = (w', Ok tt)
    /\ signals_blocked w' = true
    /\ map item_leaf (items w') = map node_leaf (nodes_in [] structure)
    /\ node_paths (items w') = map fst (nodes_in [] structure)
    /\ parents_precede (items w').
Proof.
  intros Htree Hb Hnil.
  destruct (structure_traversed structure) with (parent := @None nat)
    (path := @nil string) (w := w)
    as (w' & new & Hrun & Hit & Hb' & _ & _ & _ & Hleaf & Hpaths & Hpre).
  - apply Forall_forall. intros kv _. apply add_tree_entry_traversed.
  - exact Hb.
  - reflexivity.
  - rewrite Hnil. intros i it g Hi. discriminate.
  - exists w'. unfold build_tree_from_paths.
    unfold mbind at 1. unfold Act_bind at 1. unfold lift at 1.
    rewrite Htree. unfold add_tree_structure.
    rewrite Hnil in *. cbn in Hit, Hpaths.
    split; [exact Hrun |]. split; [exact Hb' |].
    split; [now rewrite Hit |]. split; [exact Hpaths | exact Hpre].
Qed.












Lemma dict_get_elem (k : string) (c : PyVal) (d : Dict) :
dict_get k d = Some c -> (k, c) ∈ d.
Proof.
induction d as [| [k' v'] d IH]; cbn; [discriminate |].
destruct (String.eqb_spec k k') as [-> | Hne].
- intros [= <-]. apply list_elem_of_here.
- intros Hget. apply list_elem_of_further. auto.
Qed.

Lemma dict_get_NoDup_elem (k : string) (c : PyVal) (d : Dict) :
NoDup d.*1 -> (k, c) ∈ d -> dict_get k d = Some c.
Proof.
induction d as [| [k' v'] d IH]; cbn; intros Hnd Hin.
- now apply elem_of_nil in Hin.
- apply NoDup_cons in Hnd as [Hk' Hnd].
  apply elem_of_cons in Hin as [[= -> ->] | Hin].
  + now rewrite String.eqb_refl.
  + destruct (String.eqb_spec k k') as [-> | Hne]; [| auto].
    exfalso. apply Hk'. apply list_elem_of_fmap. now exists (k', c).
Qed.







Lemma prefix_free_pair (l : Dict) (k1 k2 : string) :
prefix_free l -> k1 ∈ l.*1 -> k2 ∈ l.*1 ->
~ proper_prefix (split_dot k1) (split_dot k2).
Proof.
intros Hfree H1 H2. unfold prefix_free in Hfree.
rewrite Forall_forall in Hfree. specialize (Hfree k1 H1).
rewrite Forall_forall in Hfree. now apply Hfree.
Qed.
















Lemma set_yaml_parameters_run (parameters : Dict) (w : Widget) :
  set_yaml_parameters parameters w
  = let r := build_tree_from_paths parameters
               (mkWidget [] parameters ∅ (updating w) true (emitted w)) in
    (set_signals_blocked false r.1, r.2).
Proof.
  unfold set_yaml_parameters, try_finally, reset_tree, blockSignals, modify.
  unfold mbind, Act_bind. cbn.
  destruct (build_tree_from_paths _ _) as [w1 [[] | e]]; reflexivity.
Qed.



Lemma guarded_empty : guarded [] (PDict []).
Proof. intros s Hcov. inversion Hcov; discriminate. Qed.

Lemma prefix_free_structure (parameters : Dict) :
  prefix_free parameters ->
  exists structure,
    tree_structure_of parameters (PDict []) = Ok (PDict structure).
Proof.
  intros Hfree.
  destruct (tree_structure_of_ok parameters [] []) as (d & Hd & _).
  - apply guarded_empty.
  - intros k k' Hk Hk'. cbn in Hk. now apply (prefix_free_pair parameters).
  - now exists d.
Qed.

(** C10. The builder needs a prefix-free set of keys. When no key is,
    segment by segment, a proper prefix of another, the structure is built
    and [set_yaml_parameters] ends without an exception. When the mapping is
    flat and some key is a proper prefix of a later key, the walk for the
    later key comes to descend into the value of the earlier one, which is no
    dictionary, and the build ends with [TypeError]. *)
Theorem build_tree_from_paths_prefix_free (parameters : Dict) (w : Widget) :
  (prefix_free parameters ->
   (exists structure,
       tree_structure_of parameters (PDict []) = Ok (PDict structure))
   /\ (set_yaml_parameters parameters w).2 = Ok tt)
  /\ (flat parameters -> prefix_before parameters ->
      tree_structure_of parameters (PDict []) = Raise TypeError
      /\ (set_yaml_parameters parameters w).2 = Raise TypeError).
Proof.
  split.
  - intros Hfree.
    destruct (prefix_free_structure parameters Hfree) as [structure Htree].
    split; [now exists structure |].
    rewrite set_yaml_parameters_run. cbv zeta. cbn [snd].
    destruct (build_tree_from_paths_run parameters structure
                (mkWidget [] parameters ∅ (updating w) true (emitted w)))
      as (w' & Hrun & _); try reflexivity; try assumption.
    now rewrite Hrun.
  - intros Hflat Hbefore.
    pose proof (tree_structure_of_conflict parameters Hflat Hbefore (PDict []))
      as Htree.
    split; [exact Htree |].
    rewrite set_yaml_parameters_run. cbv zeta. cbn [snd].
    unfold build_tree_from_paths, mbind, Act_bind, lift.
    now rewrite Htree.
Qed.



End TreeFacts.

(** ** The builder on examples *)

Lemma build_tree_from_paths_prefix_free_witness :
  (Examples.load_yaml
     [("a.b.x", PInt 1); ("a.b.y", PInt 2); ("a.c", PInt 3)]).2 = Ok tt
  /\ (Examples.load_yaml [("a", PInt 1); ("a.b", PInt 2)]).2 = Raise TypeError.
Proof.
  split.
  - refine (proj2 (proj1 (@build_tree_from_paths_prefix_free
                            RefBuiltins.builtins RefBuiltins.every_write
                            [("a.b.x", PInt 1); ("a.b.y", PInt 2);
                             ("a.c", PInt 3)] init_widget) _)).
    apply (bool_decide_unpack _). vm_compute. exact I.
  - refine (proj2 (proj2 (@build_tree_from_paths_prefix_free
                            RefBuiltins.builtins RefBuiltins.every_write
                            [("a", PInt 1); ("a.b", PInt 2)] init_widget) _ _)).
    + repeat constructor.
    + exists 0%nat, 1%nat, "a", "a.b", (PInt 1), (PInt 2).
      split; [lia |]. split; [reflexivity |]. split; [reflexivity |].
      split; [now exists ["b"] | discriminate].
Defined.


(** The tree of the example of the specification. *)
Example yaml_example_tree :
  let w := (Examples.load_yaml
              [("a.b.x", PInt 1); ("a.b.y", PInt 2); ("a.c", PInt 3)]).1 in
  group_paths w = [["a"]; ["a"; "b"]]
  /\ leaves w = [("a.b.x", PInt 1); ("a.b.y", PInt 2); ("a.c", PInt 3)]
  /\ node_paths (items w)
     = [["a"]; ["a"; "b"]; ["a"; "b"; "x"]; ["a"; "b"; "y"]; ["a"; "c"]].
Proof. vm_compute. repeat split. Qed.


(** * Further properties of the loaders, the refresh, the edit handler,
    the delegate and the publisher *)

(** ** The edit handler during a build *)

Section BuildFacts.
Context `{!PyBuiltins} `{!Toolkit}.

(** The handler returns at once for a column that is not the value column
    and for an item that has no path. *)
Lemma on_item_changed_inert item column w :
  column <> Columns.VALUE \/ item_path (the_item w item) = None ->
  on_item_changed item column w = (w, Ok tt).
Proof.
  intros Hinert. unfold on_item_changed.
  change (on_item_changed_depth 2)
    with (on_item_changed_body (on_item_changed_depth 1)).
  unfold on_item_changed_body.
  unfold mbind at 1. unfold Act_bind at 1. unfold get_widget at 1.
  destruct (updating w); [reflexivity |]. cbn [orb].
  destruct Hinert as [Hcol | Hpath].
  - apply Nat.eqb_neq in Hcol. now rewrite Hcol.
  - rewrite Hpath. now destruct (negb _).
Qed.

Lemma write_item_inert item column f w :
  column <> Columns.VALUE \/ item_path (f (the_item w item)) = None ->
  write_item on_item_changed item column f w
  = (set_items (alter f item (items w)) w, Ok tt).
Proof.
  intros Hinert. unfold write_item.
  destruct (_ && _); [| reflexivity].
  apply on_item_changed_inert.
  destruct Hinert as [Hcol | Hpath]; [now left | right].
  unfold the_item in *. cbn [items set_items].
  rewrite list_lookup_alter_eq.
  now destruct (items w !! item).
Qed.

Lemma write_last column f l x params idx upd blk em :
  column <> Columns.VALUE \/ item_path (f x) = None ->
  write_item on_item_changed (length l) column f
             (mkWidget (l ++ [x]) params idx upd blk em)
  = (mkWidget (l ++ [f x]) params idx upd blk em, Ok tt).
Proof.
  intros Hinert. rewrite write_item_inert.
  - unfold set_items. cbn. now rewrite alter_last.
  - unfold the_item. cbn [items].
    rewrite lookup_app_r, Nat.sub_diag by lia. exact Hinert.
Qed.

Lemma bind_write_last {A : Type} column f (k : unit -> Act A)
    l x params idx upd blk em :
  column <> Columns.VALUE \/ item_path (f x) = None ->
  (write_item on_item_changed (length l) column f ≫= k)
    (mkWidget (l ++ [x]) params idx upd blk em)
  = k tt (mkWidget (l ++ [f x]) params idx upd blk em).
Proof.
  intros Hinert. unfold mbind, Act_bind.
  now rewrite write_last.
Qed.

Lemma bind_lift_ok {A B : Type} (a : A) (k : A -> Act B) w :
  (lift (Ok a) ≫= k) w = k a w.
Proof. reflexivity. Qed.

Lemma bind_modify {A : Type} f (k : unit -> Act A) w :
  (modify f ≫= k) w = k tt (f w).
Proof. reflexivity. Qed.

Ltac inert_side :=
  first [left; cbv; congruence | right; reflexivity].

(** [_add_parameter_item] in any state of the widget. *)
Lemma add_parameter_item_run parent param_name param_info full_path w :
  add_parameter_item parent param_name param_info full_path w
  = let r := parameter_item parent param_name param_info full_path in
    (mkWidget (items w ++ [r.1]) (parameters w)
              (index_items (length (items w)) [r.1] (param_to_item w))
              (updating w) (signals_blocked w) (emitted w), r.2).
Proof.
  destruct w as [l params idx upd blk em].
  unfold add_parameter_item, parameter_item.
  unfold setText, setData_EditRole, setFlags_editable, setData_UserRole,
    setForeground.
  unfold mbind at 1. unfold Act_bind at 1. unfold new_item at 1.
  unfold set_items.
  cbn [items parameters param_to_item updating signals_blocked emitted].
  rewrite bind_write_last by inert_side.
  destruct param_info as [| | | | | | d]; try reflexivity.
  cbn [py_get]. fold (value_entry d). rewrite bind_lift_ok.
  fold (info_type d). rewrite bind_lift_ok.
  do 3 (rewrite bind_write_last by inert_side).
  destruct (info_type d) as [| b | n | x | type_text | l0 | d0];
    try reflexivity.
  rewrite bind_lift_ok.
  fold (stored_path param_name full_path).
  do 2 (rewrite bind_write_last by inert_side).
  rewrite bind_modify. unfold set_param_to_item.
  cbn [param_to_item items parameters updating signals_blocked emitted].
  destruct (color_map (get_param_category type_text)) as [c |].
  - now rewrite write_last by inert_side.
  - reflexivity.
Qed.
End BuildFacts.

(** ** The index of a list of items, and the loop of [_build_tree] *)

Lemma index_items_app (a b : list Item) :
  forall next index,
    index_items next (a ++ b) index
    = index_items (next + length a) b (index_items next a index).
Proof.
  induction a as [| it a IH]; intros next index; cbn.
  - now rewrite Nat.add_0_r.
  - rewrite IH. f_equal. lia.
Qed.

(** The index holds, for a path, the last item that carries it. *)
Lemma index_items_lookup (new : list Item) :
  forall next index p i,
    index_items next new index !! p = Some i
    <-> (exists j it, i = (next + j)%nat /\ new !! j = Some it
                      /\ item_path it = Some p
                      /\ forall j' it', (j < j')%nat -> new !! j' = Some it' ->
                                        item_path it' <> Some p)
        \/ (index !! p = Some i
            /\ forall j' it', new !! j' = Some it' -> item_path it' <> Some p).
Proof.
  induction new as [| x new IH]; intros next index p i; cbn [index_items].
  - split.
    + intros Hi. right. split; [exact Hi |]. intros j' it' Hj.
      now rewrite lookup_nil in Hj.
    + intros [(j & it & _ & Hj & _) | [Hi _]]; [| exact Hi].
      now rewrite lookup_nil in Hj.
  - rewrite IH. split.
    + intros [(j & it & -> & Hj & Hp & Hlast) | [Hi Hnone]].
      * left. exists (S j), it. repeat split; [lia | exact Hj | exact Hp |].
        intros [| j'] it' Hlt Hj'; [lia |].
        apply (Hlast j' it'); [lia | exact Hj'].
      * destruct (item_path x) as [px |] eqn:Hx.
        -- destruct (decide (px = p)) as [-> | Hne].
           ++ rewrite lookup_insert_eq in Hi. injection Hi as <-.
              left. exists 0%nat, x.
              repeat split; [lia | exact Hx |].
              intros [| j'] it' Hlt Hj'; [lia |]. now apply (Hnone j' it').
           ++ rewrite lookup_insert_ne in Hi by exact Hne.
              right. split; [exact Hi |].
              intros [| j'] it' Hj'.
              ** injection Hj' as <-. rewrite Hx. congruence.
              ** now apply (Hnone j' it').
        -- right. split; [exact Hi |].
           intros [| j'] it' Hj'.
           ++ injection Hj' as <-. rewrite Hx. discriminate.
           ++ now apply (Hnone j' it').
    + intros [(j & it & -> & Hj & Hp & Hlast) | [Hi Hnone]].
      * destruct j as [| j].
        -- injection Hj as <-. right. rewrite Hp, Nat.add_0_r.
           rewrite lookup_insert_eq. split; [reflexivity |].
           intros j' it' Hj'. apply (Hlast (S j') it'); [lia | exact Hj'].
        -- left. exists j, it. repeat split; [lia | exact Hj | exact Hp |].
           intros j' it' Hlt Hj'. apply (Hlast (S j') it'); [lia | exact Hj'].
      * right. split.
        -- pose proof (Hnone 0%nat x eq_refl) as Hx.
           destruct (item_path x) as [px |]; [| exact Hi].
           rewrite lookup_insert_ne; [exact Hi | congruence].
        -- intros j' it' Hj'. now apply (Hnone (S j') it').
Qed.

(** The index of a whole tree. *)
Lemma index_items_whole (l : list Item) (p : string) (i : nat) :
  index_items 0 l ∅ !! p = Some i
  <-> exists it, l !! i = Some it /\ item_path it = Some p
                 /\ forall j it', (i < j)%nat -> l !! j = Some it' ->
                                  item_path it' <> Some p.
Proof.
  rewrite index_items_lookup. split.
  - intros [(j & it & -> & Hj & Hp & Hlast) | [Hi _]].
    + exists it. now repeat split.
    + now rewrite lookup_empty in Hi.
  - intros (it & Hi & Hp & Hlast). left. exists i, it. now repeat split.
Qed.

Section LoadFacts.
Context `{!PyBuiltins} `{!Toolkit}.

Lemma build_tree_loop (mapping : Dict) :
  forall w,
    for_each (fun entry : string * PyVal =>
                add_parameter_item None entry.1 entry.2 None) mapping w
    = (mkWidget (items w ++ (load_items mapping).1) (parameters w)
                (index_items (length (items w)) (load_items mapping).1
                             (param_to_item w))
                (updating w) (signals_blocked w) (emitted w),
       (load_items mapping).2).
Proof.
  induction mapping as [| [param_name param_info] rest IH]; intros w.
  - cbn. rewrite app_nil_r. now destruct w.
  - cbn [for_each load_items].
    unfold mbind at 1. unfold Act_bind at 1.
    rewrite add_parameter_item_run. cbn [fst snd]. cbv zeta.
    destruct (parameter_item None param_name param_info None) as [it [[] | e]];
      cbn [fst snd].
    + change (for_each _ rest) with
        (for_each (fun entry : string * PyVal =>
                     add_parameter_item None entry.1 entry.2 None) rest) in *.
      rewrite IH.
      cbn [items parameters param_to_item updating signals_blocked emitted
           index_items].
      rewrite <- app_assoc, length_app. cbn [length app].
      rewrite Nat.add_1_r. reflexivity.
    + reflexivity.
Qed.

(** [set_parameters] as a function of the mapping. *)
Lemma set_parameters_run node_name (parameters : Dict) w :
  set_parameters node_name parameters w
  = (mkWidget (load_items parameters).1 parameters
              (index_items 0 (load_items parameters).1 ∅)
              (updating w) false (emitted w),
     (load_items parameters).2).
Proof.
  unfold set_parameters, try_finally, reset_tree, build_tree, blockSignals.
  rewrite bind_modify.
  unfold mbind at 1. unfold Act_bind at 1.
  rewrite !bind_modify. unfold modify at 1.
  rewrite build_tree_loop.
  unfold modify. destruct w. cbn.
  now destruct ((load_items parameters).2).
Qed.

Lemma parameter_item_record parent param_name param_info full_path :
  record_info param_info = true ->
  (parameter_item parent param_name param_info full_path).2 = Ok tt.
Proof.
  unfold record_info, parameter_item.
  destruct param_info; try discriminate.
  now destruct (info_type d).
Qed.

Lemma parameter_item_raise parent param_name param_info full_path :
  record_info param_info = false ->
  (parameter_item parent param_name param_info full_path).2
  = Raise (load_error param_info).
Proof.
  unfold record_info, parameter_item, load_error.
  destruct param_info; try reflexivity.
  now destruct (info_type d).
Qed.

Lemma load_items_cons_ok param_name param_info (rest : Dict) :
  record_info param_info = true ->
  load_items ((param_name, param_info) :: rest)
  = (param_leaf (param_name, param_info) :: (load_items rest).1,
     (load_items rest).2).
Proof.
  intros Hrec. cbn [load_items]. unfold param_leaf. cbn [fst snd].
  pose proof (parameter_item_record None param_name param_info None Hrec)
    as Hok.
  destruct (parameter_item None param_name param_info None) as [it r].
  cbn [fst snd] in *. now subst r.
Qed.

Lemma load_items_cons_raise param_name param_info (rest : Dict) :
  record_info param_info = false ->
  load_items ((param_name, param_info) :: rest)
  = ([param_leaf (param_name, param_info)], Raise (load_error param_info)).
Proof.
  intros Hbad. cbn [load_items]. unfold param_leaf. cbn [fst snd].
  pose proof (parameter_item_raise None param_name param_info None Hbad)
    as Hraise.
  destruct (parameter_item None param_name param_info None) as [it r].
  cbn [fst snd] in *. now subst r.
Qed.



(** Every mapping is loaded up to its first entry that is no record. *)
Lemma load_items_split (parameters : Dict) :
  Forall (fun kv => record_info kv.2 = true) parameters
  \/ exists done param_name param_info rest,
       parameters = done ++ (param_name, param_info) :: rest
       /\ Forall (fun kv => record_info kv.2 = true) done
       /\ record_info param_info = false.
Proof.
  induction parameters as [| [k info] rest IH]; [now left |].
  destruct (record_info info) eqn:Hinfo.
  - destruct IH as [Hall | (done & pn & pi & rest' & -> & Hdone & Hbad)].
    + left. now constructor.
    + right. exists ((k, info) :: done), pn, pi, rest'.
      repeat split; [| exact Hbad]. now constructor.
  - right. exists [], k, info, rest. now repeat split.
Qed.
End LoadFacts.

(** ** The traversal of a structure as a function *)

Lemma tree_structure_of_dict (l : Dict) :
  forall tree tree',
    is_dict tree = true ->
    tree_structure_of l tree = Ok tree' -> is_dict tree' = true.
Proof.
  induction l as [| [k v] l IH]; intros tree tree' Hd Hrun; cbn in Hrun.
  - now injection Hrun as <-.
  - destruct (insert_path _ _ _ tree) as [t1 | e] eqn:Hins; cbn in Hrun;
      [| discriminate].
    eapply IH; [| exact Hrun]. eapply insert_path_dict, Hins.
Qed.

Lemma extended_nil (w : Widget) : extended [] w = w.
Proof. unfold extended. cbn. rewrite app_nil_r. now destruct w. Qed.

Lemma extended_app (a b : list Item) (w : Widget) :
  extended b (extended a w) = extended (a ++ b) w.
Proof.
  unfold extended. cbn. rewrite length_app, index_items_app, app_assoc.
  reflexivity.
Qed.

Section YamlFacts.
Context `{!PyBuiltins} `{!Toolkit}.

Lemma entry_items_dict parent path next key (d : Dict) :
  entry_items parent path next key (PDict d)
  = group_item parent key
    :: structure_items (Some next) (path ++ [key]) (S next) d.
Proof.
  cbn [entry_items]. f_equal.
  generalize (S next) as n.
  induction d as [| [k v] d IH]; intros n; [reflexivity |].
  cbn [structure_items]. now rewrite IH.
Qed.

Lemma structure_runs (structure : Dict) :
  Forall (fun kv => entry_runs kv.2) structure ->
  forall parent path w,
    signals_blocked w = true ->
    for_each (fun entry : string * PyVal =>
                match entry with
                | (k, v) => add_tree_entry parent path k v
                end) structure w
    = (extended (structure_items parent path (length (items w)) structure) w,
       Ok tt).
Proof.
  induction 1 as [| [k v] structure Hv _ IH]; intros parent path w Hb.
  - cbn. now rewrite extended_nil.
  - cbn [for_each structure_items].
    unfold mbind at 1. unfold Act_bind at 1. cbn [fst snd] in *.
    rewrite (Hv parent path k w Hb).
    rewrite IH by exact Hb. rewrite extended_app.
    cbn [items extended]. now rewrite length_app.
Qed.

Lemma add_tree_entry_runs (value : PyVal) : entry_runs value.
Proof.
  induction value as [v Hleaf | d IH] using PyVal_nested_ind;
    intros parent path key w Hb.
  - rewrite add_tree_entry_leaf by exact Hleaf.
    rewrite add_parameter_item_leaf;
      [| exact Hb | apply join_dot_snoc_empty].
    unfold extended. rewrite <- Hb.
    destruct v; try discriminate; reflexivity.
  - rewrite add_tree_entry_dict by exact Hb.
    rewrite (structure_runs d IH) by exact Hb.
    rewrite entry_items_dict.
    unfold extended. cbn [items set_items parameters param_to_item updating
                          signals_blocked emitted index_items group_item
                          item_path].
    rewrite length_app, <- app_assoc. cbn [length app].
    now rewrite Nat.add_1_r.
Qed.

(** [set_yaml_parameters] as a function of the mapping. *)
Lemma set_yaml_parameters_outcome (mapping : Dict) (w : Widget) :
  set_yaml_parameters mapping w
  = (mkWidget (yaml_items mapping) mapping
              (index_items 0 (yaml_items mapping) ∅) (updating w) false
              (emitted w),
     match tree_structure_of mapping (PDict []) with
     | Ok _ => Ok tt
     | Raise _ => Raise TypeError
     end).
Proof.
  rewrite set_yaml_parameters_run. cbv zeta.
  unfold build_tree_from_paths, yaml_items.
  destruct (tree_structure_of mapping (PDict [])) as [tree | e] eqn:Htree.
  - pose proof (tree_structure_of_dict mapping (PDict []) tree eq_refl Htree)
      as Hd.
    destruct tree as [| | | | | | structure]; try discriminate.
    rewrite bind_lift_ok. unfold add_tree_structure.
    rewrite structure_runs; [reflexivity | | reflexivity].
    apply Forall_forall. intros kv _. apply add_tree_entry_runs.
  - now rewrite (tree_structure_of_raises _ _ _ Htree).
Qed.

End YamlFacts.

(** ** [_add_parameter_item] and [set_parameters] *)

Section LoadTheorems.
Context `{!PyBuiltins} `{!Toolkit}.


Lemma param_leaf_path (entry : string * PyVal) (p : string) :
  item_path (param_leaf entry) = Some p -> p = entry.1.
Proof.
  unfold param_leaf, parameter_item.
  destruct entry as [param_name param_info]. cbn [fst snd].
  destruct param_info as [| | | | | | d]; try discriminate.
  destruct (info_type d); try discriminate.
  cbn. congruence.
Qed.




End LoadTheorems.

(** ** Both loaders *)



Section LoaderTheorems.
Context `{!PyBuiltins} `{!Toolkit}.


Lemma param_leaf_yaml_record (entry : string * PyVal) :
  param_leaf (yaml_record entry) = leaf_item None entry.1 entry.2 entry.1.
Proof. reflexivity. Qed.


(** X4. Both loaders, on every mapping and whether they complete or
    raise: the signals of the widget are unblocked afterwards (also when
    the caller had them blocked), no event is emitted and the refresh flag
    is untouched; the mapping is the new snapshot (for
    [set_yaml_parameters] on a flat mapping: the builder writes into the
    dictionaries that a mapping holds as values); the tree and the index
    depend on the mapping alone, not on what the widget showed before, and
    [set_parameters] makes no use of the node name. *)
Theorem loaders_frame
    (node_name other_name : string) (mapping : Dict) (w : Widget) :
  let rp := set_parameters node_name mapping w in
  let ry := set_yaml_parameters mapping w in
  (signals_blocked rp.1 = false /\ signals_blocked ry.1 = false)
  /\ (parameters rp.1 = mapping /\ (flat mapping -> parameters ry.1 = mapping))
  /\ (emitted rp.1 = emitted w /\ emitted ry.1 = emitted w)
  /\ (updating rp.1 = updating w /\ updating ry.1 = updating w)
  /\ (items rp.1 = items (set_parameters node_name mapping init_widget).1
      /\ param_to_item rp.1
         = param_to_item (set_parameters node_name mapping init_widget).1
      /\ rp.2 = (set_parameters node_name mapping init_widget).2)
  /\ (items ry.1 = items (set_yaml_parameters mapping init_widget).1
      /\ param_to_item ry.1
         = param_to_item (set_yaml_parameters mapping init_widget).1
      /\ ry.2 = (set_yaml_parameters mapping init_widget).2)
  /\ set_parameters other_name mapping w = rp.
Proof.
  cbv zeta. rewrite !set_parameters_run, !set_yaml_parameters_outcome.
  cbn [fst snd items parameters param_to_item updating signals_blocked
       emitted].
  repeat split.
Qed.

(** X5. After either loader, on every mapping and whether it completed or
    raised, the index and the tree agree: a path is indexed to an item
    exactly when this is the last item of the tree that carries the path.
    So no entry of the index points at a missing item or at a group, and
    every path that a leaf carries is indexed. *)
Theorem loaders_index
    (node_name : string) (mapping : Dict) (w : Widget) (p : string) (i : nat) :
  let wp := (set_parameters node_name mapping w).1 in
  let wy := (set_yaml_parameters mapping w).1 in
  (param_to_item wp !! p = Some i
   <-> exists it, items wp !! i = Some it /\ item_path it = Some p
                  /\ forall j it', (i < j)%nat -> items wp !! j = Some it' ->
                                   item_path it' <> Some p)
  /\ (param_to_item wy !! p = Some i
      <-> exists it, items wy !! i = Some it /\ item_path it = Some p
                     /\ forall j it', (i < j)%nat -> items wy !! j = Some it' ->
                                      item_path it' <> Some p).
Proof.
  cbv zeta. rewrite set_parameters_run, set_yaml_parameters_outcome.
  cbn [fst items param_to_item].
  split; apply index_items_whole.
Qed.

(** X6. [set_yaml_parameters] shows all of the file or nothing: it
    completes exactly when the first loop of [_build_tree_from_paths]
    builds its structure, and otherwise it raises [TypeError] and leaves an
    empty tree and an empty index, with the signals unblocked. *)
Theorem set_yaml_parameters_all_or_nothing (mapping : Dict) (w : Widget) :
  let r := set_yaml_parameters mapping w in
  (r.2 = Ok tt
   <-> exists structure,
         tree_structure_of mapping (PDict []) = Ok (PDict structure))
  /\ (r.2 <> Ok tt ->
      r.2 = Raise TypeError
      /\ tree_structure_of mapping (PDict []) = Raise TypeError
      /\ items r.1 = [] /\ param_to_item r.1 = ∅
      /\ signals_blocked r.1 = false).
Proof.
  cbv zeta. rewrite set_yaml_parameters_outcome.
  cbn [fst snd items param_to_item signals_blocked].
  unfold yaml_items.
  destruct (tree_structure_of mapping (PDict [])) as [tree | e] eqn:Htree.
  - pose proof (tree_structure_of_dict mapping (PDict []) tree eq_refl Htree)
      as Hd.
    destruct tree as [| | | | | | structure]; try discriminate.
    split; [| congruence]. split; [| reflexivity].
    intros _. now exists structure.
  - pose proof (tree_structure_of_raises _ _ _ Htree) as ->.
    split.
    + split; [discriminate |]. now intros [structure Hs].
    + intros _. now repeat split.
Qed.

End LoaderTheorems.

(** ** The refresh after a load *)

Section RefreshTheorems.
Context `{!PyBuiltins} `{!Toolkit}.

Lemma refresh_items_result index (updates : Dict) :
  forall l : list Item,
    ((refresh_items index updates l).2 = Ok tt
     <-> Forall (fun kv => indexed index kv = true -> is_dict kv.2 = true)
                updates)
    /\ ((refresh_items index updates l).2 = Ok tt
        \/ (refresh_items index updates l).2 = Raise AttributeError).
Proof.
  induction updates as [| [param_name param_info] rest IH]; intros l.
  - cbn. split; [| now left]. split; [constructor | reflexivity].
  - cbn [refresh_items]. unfold indexed at 1. cbn [fst snd].
    destruct (index !! param_name) as [item |] eqn:Hix.
    + destruct param_info as [| | | | | | d];
        try (cbn; split; [| now right]; split; [discriminate |];
             intros Hall; apply Forall_cons in Hall as [Hd _];
             unfold indexed in Hd; cbn [fst snd] in Hd; rewrite Hix in Hd;
             now specialize (Hd eq_refl)).
      destruct (IH (alter (refresh_item (value_entry d)) item l))
        as [Hiff Hor].
      split; [| exact Hor]. rewrite Hiff. split.
      * intros Hall. constructor; [reflexivity | exact Hall].
      * intros Hall. now apply Forall_cons in Hall as [_ Hall].
    + destruct (IH l) as [Hiff Hor]. split; [| exact Hor].
      rewrite Hiff. split.
      * intros Hall. constructor; [| exact Hall].
        unfold indexed. cbn [fst]. rewrite Hix. discriminate.
      * intros Hall. now apply Forall_cons in Hall as [_ Hall].
Qed.

(** X8. A refresh completes exactly when every entry that names an
    indexed path is a dictionary; otherwise it raises [AttributeError] at
    the first such entry and returns without clearing [updating]. From
    then on the edit handler ignores every commit, until a refresh that
    completes clears the flag. *)
Theorem update_parameter_values_outcome (updates : Dict) (w : Widget) :
  let r := update_parameter_values updates w in
  (r.2 = Ok tt \/ r.2 = Raise AttributeError)
  /\ (r.2 = Ok tt
      <-> Forall (fun kv => indexed (param_to_item w) kv = true ->
                            is_dict kv.2 = true) updates)
  /\ (r.2 = Ok tt -> updating r.1 = false)
  /\ (r.2 <> Ok tt ->
      updating r.1 = true
      /\ (forall item column,
             on_item_changed item column r.1 = (r.1, Ok tt))
      /\ (forall updates',
             (update_parameter_values updates' r.1).2 = Ok tt ->
             updating (update_parameter_values updates' r.1).1 = false)).
Proof.
  cbv zeta. rewrite update_parameter_values_run. cbv zeta. cbn [fst snd].
  destruct (refresh_items_result (param_to_item w) updates (items w))
    as [Hiff Hor].
  split; [destruct Hor; auto |]. split; [exact Hiff |].
  split.
  - intros ->. reflexivity.
  - intros Hbad.
    assert (Hup : updating_after
                    (refresh_items (param_to_item w) updates (items w)).2
                  = true).
    { destruct Hor as [Hok | ->]; [contradiction | reflexivity]. }
    cbn [updating]. split; [exact Hup |]. split.
    + intros item column. apply on_item_changed_depth_updating. exact Hup.
    + intros updates'. rewrite update_parameter_values_run. cbv zeta.
      cbn [fst snd updating]. now intros ->.
Qed.

End RefreshTheorems.

(** ** The edit handler as a function *)

Section HandlerRun.
Context `{!PyBuiltins} `{!Toolkit}.

(** The handler comes to [handler_outcome]: its own write is made with
    [updating] set, so the nested call returns at once. *)
Lemma on_item_changed_run item column w :
  on_item_changed item column w = handler_outcome item column w.
Proof.
  unfold on_item_changed, handler_outcome.
  change (on_item_changed_depth 2)
    with (on_item_changed_body (on_item_changed_depth 1)).
  unfold on_item_changed_body.
  unfold mbind at 1. unfold Act_bind at 1. unfold get_widget at 1.
  cbv zeta.
  destruct (updating w || negb (column =? Columns.VALUE)%nat) eqn:Hguard;
    [reflexivity |].
  apply orb_false_elim in Hguard as [Hup _].
  destruct (item_path (the_item w item)) as [param_path |]; [| reflexivity].
  destruct (String.eqb param_path EmptyString); [reflexivity |].
  change (item_text (the_item w item) Columns.VALUE)
    with (item_value (the_item w item)).
  change (item_text (the_item w item) Columns.TYPE)
    with (item_type (the_item w item)).
  destruct (parse_value _ _) as [new_value |].
  { unfold emit_parameter_changed, modify.
    now destruct (signals_blocked w). }
  unfold mbind at 1. unfold Act_bind at 1.
  assert (Hfetch :
    match item_edit (the_item w item) with
    | PNone =>
        if dict_mem param_path (parameters w)
        then
          info ← lift (py_getitem (PDict (parameters w)) param_path);
          lift (py_get info "value" PNone)
        else mret PNone
    | cached => mret cached
    end w
    = (w, match previous_accepted w (the_item w item) param_path with
          | Some prev => Ok prev
          | None => Raise AttributeError
          end)).
  { unfold previous_accepted, dict_mem, py_getitem.
    destruct (item_edit (the_item w item)); try reflexivity.
    destruct (dict_get param_path (parameters w)) as [info |];
      [| reflexivity].
    now destruct info. }
  rewrite Hfetch.
  destruct (previous_accepted w (the_item w item) param_path) as [prev |];
    [| reflexivity].
  unfold mbind at 1. unfold Act_bind at 1. unfold modify at 1.
  unfold mbind at 1. unfold Act_bind at 1. unfold setText.
  rewrite write_item_updating by reflexivity.
  unfold modify. f_equal. destruct w. cbn in *. subst.
  reflexivity.
Qed.
End HandlerRun.

Section HandlerTheorems.
Context `{!PyBuiltins} `{!Toolkit}.

Lemma the_item_path (w : Widget) (item : nat) (p : string) :
  item_path (the_item w item) = Some p ->
  items w !! item = Some (the_item w item).
Proof.
  unfold the_item. now destruct (items w !! item).
Qed.

Lemma previous_accepted_None (w : Widget) (it : Item) (p : string) :
  previous_accepted w it p = None
  <-> item_edit it = PNone
      /\ exists x, dict_get p (parameters w) = Some x /\ is_dict x = false.
Proof.
  unfold previous_accepted. split.
  - destruct (item_edit it); try discriminate.
    destruct (dict_get p (parameters w)) as [x |]; [| discriminate].
    destruct x; try discriminate; intros _; split; eauto.
  - intros [-> (x & -> & Hx)]. now destruct x.
Qed.




(** The handler raises in one situation only. *)
Lemma handler_outcome_raises (item column : nat) (w : Widget) :
  (handler_outcome item column w).2 <> Ok tt
  <-> updating w = false /\ column = Columns.VALUE
      /\ exists it p x,
           items w !! item = Some it /\ item_path it = Some p
           /\ p <> EmptyString
           /\ parse_value (get_param_category (item_type it))
                          (item_value it) = None
           /\ item_edit it = PNone
           /\ dict_get p (parameters w) = Some x /\ is_dict x = false.
Proof.
  unfold handler_outcome. cbv zeta. split.
  - destruct (updating w); cbn [orb]; [now intros [] |].
    destruct (column =? Columns.VALUE)%nat eqn:Hcol; cbn [negb];
      [| now intros []].
    apply Nat.eqb_eq in Hcol.
    destruct (item_path (the_item w item)) as [p |] eqn:Hp;
      [| now intros []].
    destruct (String.eqb p EmptyString) eqn:Hne; [now intros [] |].
    apply String.eqb_neq in Hne.
    destruct (parse_value _ _) eqn:Hparse; [now intros [] |].
    destruct (previous_accepted w (the_item w item) p) eqn:Hprev;
      [now intros [] |].
    intros _. apply previous_accepted_None in Hprev
      as [Hedit (x & Hx & Hd)].
    repeat split; [exact Hcol |].
    exists (the_item w item), p, x.
    repeat split; try assumption. now apply the_item_path in Hp.
  - intros (Hup & -> & it & p & x & Hit & Hp & Hne & Hparse & Hedit & Hx
            & Hd).
    rewrite Hup. cbn [orb negb Nat.eqb Columns.VALUE].
    rewrite (the_item_lookup w item it Hit), Hp.
    apply String.eqb_neq in Hne. rewrite Hne, Hparse.
    assert (Hprev : previous_accepted w it p = None).
    { apply previous_accepted_None. eauto. }
    rewrite Hprev. discriminate.
Qed.

Lemma handler_outcome_ok (item column : nat) (w : Widget) :
  ~ (handler_outcome item column w).2 <> Ok tt ->
  (handler_outcome item column w).2 = Ok tt.
Proof.
  intros Hnot.
  destruct (handler_outcome item column w).2 as [[] | e];
    [reflexivity | exfalso].
  apply Hnot. discriminate.
Qed.

Lemma handler_outcome_records (item column : nat) (w : Widget) :
  Forall (fun kv => is_dict kv.2 = true) (parameters w) ->
  (handler_outcome item column w).2 = Ok tt.
Proof.
  intros Hall. apply handler_outcome_ok. intros Hbad.
  apply handler_outcome_raises in Hbad
    as (_ & _ & it & p & x & _ & _ & _ & _ & _ & Hx & Hd).
  apply dict_get_elem in Hx.
  pose proof (proj1 (Forall_forall _ _) Hall _ Hx) as Hdict.
  cbn in Hdict. congruence.
Qed.

(** X12. [on_item_changed] raises exactly in one situation: outside a
    refresh, for the value column of a leaf with a non-empty path whose
    text does not parse, when no value is cached on the leaf and the
    snapshot holds for the path something that is no dictionary. It never
    raises on a snapshot of dictionaries. *)
Theorem on_item_changed_raises (item column : nat) (w : Widget) :
  let r := on_item_changed item column w in
  (r.2 <> Ok tt
   <-> updating w = false /\ column = Columns.VALUE
       /\ exists it p x,
            items w !! item = Some it /\ item_path it = Some p
            /\ p <> EmptyString
            /\ parse_value (get_param_category (item_type it)) (item_value it)
               = None
            /\ item_edit it = PNone
            /\ dict_get p (parameters w) = Some x /\ is_dict x = false)
  /\ (Forall (fun kv => is_dict kv.2 = true) (parameters w) -> r.2 = Ok tt).
Proof.
  cbv zeta. rewrite on_item_changed_run. split.
  - apply handler_outcome_raises.
  - apply handler_outcome_records.
Qed.
End HandlerTheorems.

(** ** The edit handler and the index after a load *)


Section AfterLoad.
Context `{!PyBuiltins} `{!Toolkit}.

(** Every item of a traversal is a leaf or a group as
    [_add_tree_structure] makes them. *)
Lemma structure_items_shape (structure : Dict) :
  Forall (fun kv : string * PyVal =>
            forall parent path next key it,
              it ∈ entry_items parent path next key kv.2 -> yaml_shaped it)
         structure ->
  forall parent path next it,
    it ∈ structure_items parent path next structure -> yaml_shaped it.
Proof.
  induction 1 as [| [k v] structure Hv _ IH]; intros parent path next it Hin.
  - now apply elem_of_nil in Hin.
  - cbn [structure_items] in Hin. apply elem_of_app in Hin as [Hin | Hin].
    + eapply Hv. exact Hin.
    + eapply IH. exact Hin.
Qed.

Lemma entry_items_shape (value : PyVal) :
  forall parent path next key it,
    it ∈ entry_items parent path next key value -> yaml_shaped it.
Proof.
  induction value as [v Hleaf | d IH] using PyVal_nested_ind;
    intros parent path next key it Hin.
  - assert (Hit : it = leaf_item parent key v (join_dot (path ++ [key]))).
    { destruct v; try discriminate;
        now apply list_elem_of_singleton in Hin. }
    subst it. unfold yaml_shaped. cbn. now repeat split.
  - rewrite entry_items_dict in Hin.
    apply elem_of_cons in Hin as [-> | Hin].
    + unfold yaml_shaped. cbn. now repeat split.
    + eapply structure_items_shape; eassumption.
Qed.

Lemma yaml_items_shape (mapping : Dict) (it : Item) :
  it ∈ yaml_items mapping -> yaml_shaped it.
Proof.
  unfold yaml_items.
  destruct (tree_structure_of mapping (PDict [])) as [[| | | | | | s] | e];
    try (intros Hin; now apply elem_of_nil in Hin).
  apply structure_items_shape.
  apply Forall_forall. intros kv _. apply entry_items_shape.
Qed.

Lemma yaml_shaped_leaf (it : Item) (p : string) :
  yaml_shaped it -> item_path it = Some p ->
  item_value it = py_str (item_edit it)
  /\ item_type it = type_name (item_edit it)
  /\ is_dict (item_edit it) = false.
Proof.
  unfold yaml_shaped. intros Hshape Hp. rewrite Hp in Hshape.
  now destruct Hshape as (? & ? & ? & _).
Qed.

(** The snapshot holds a dictionary for the path of every leaf that
    [set_parameters] shows. *)
Lemma load_items_snapshot (mapping : Dict) (it : Item) (p : string) :
  it ∈ (load_items mapping).1 -> item_path it = Some p ->
  exists x, dict_get p mapping = Some x /\ is_dict x = true.
Proof.
  induction mapping as [| [k info] rest IH]; intros Hin Hp.
  - now apply elem_of_nil in Hin.
  - destruct (record_info info) eqn:Hrec.
    + rewrite load_items_cons_ok in Hin by exact Hrec. cbn [fst] in Hin.
      cbn [dict_get].
      destruct (String.eqb p k) eqn:Hpk.
      * exists info. split; [reflexivity |].
        unfold record_info in Hrec. now destruct info.
      * apply elem_of_cons in Hin as [-> | Hin]; [| now apply IH].
        apply param_leaf_path in Hp. cbn [fst] in Hp. subst p.
        now rewrite String.eqb_refl in Hpk.
    + rewrite load_items_cons_raise in Hin by exact Hrec. cbn [fst] in Hin.
      apply list_elem_of_singleton in Hin as ->.
      unfold record_info in Hrec. unfold param_leaf, parameter_item in Hp.
      cbn [fst snd] in Hp.
      destruct info as [| | | | | | d]; try discriminate.
      now destruct (info_type d).
Qed.

(** X13. Right after either loader, whatever the mapping and whether the
    load completed, no call of [on_item_changed] raises; and after
    [set_parameters] on a mapping of records this stays so through every
    refresh. (After [set_yaml_parameters] a refresh can bring the handler
    to raise: the snapshot then holds bare values.) *)
Theorem on_item_changed_after_load
    (node_name : string) (mapping updates : Dict) (w : Widget)
    (item column : nat) :
  (on_item_changed item column (set_parameters node_name mapping w).1).2
  = Ok tt
  /\ (on_item_changed item column (set_yaml_parameters mapping w).1).2
     = Ok tt
  /\ (Forall (fun kv => record_info kv.2 = true) mapping ->
      (on_item_changed item column
         (update_parameter_values updates
            (set_parameters node_name mapping w).1).1).2 = Ok tt).
Proof.
  rewrite !on_item_changed_run. split; [| split].
  - apply handler_outcome_ok. intros Hbad.
    apply handler_outcome_raises in Hbad
      as (_ & _ & it & p & x & Hit & Hp & _ & _ & _ & Hx & Hd).
    rewrite set_parameters_run in Hit, Hx. cbn [fst items parameters] in *.
    apply list_elem_of_lookup_2 in Hit.
    destruct (load_items_snapshot mapping it p Hit Hp) as (x' & Hx' & Hd').
    congruence.
  - apply handler_outcome_ok. intros Hbad.
    apply handler_outcome_raises in Hbad
      as (_ & _ & it & p & x & Hit & Hp & _ & Hparse & Hedit & _).
    rewrite set_yaml_parameters_outcome in Hit. cbn [fst items] in Hit.
    apply list_elem_of_lookup_2 in Hit.
    destruct (yaml_shaped_leaf it p (yaml_items_shape mapping it Hit) Hp)
      as (_ & Htype & _).
    rewrite Htype, Hedit in Hparse. discriminate.
  - intros Hall. apply handler_outcome_records.
    rewrite update_parameter_values_run. cbv zeta.
    rewrite set_parameters_run. cbn [fst parameters].
    apply Forall_forall. intros [k info] Hin.
    pose proof (proj1 (Forall_forall _ _) Hall _ Hin) as Hrec.
    cbn [snd] in *. unfold record_info in Hrec. now destruct info.
Qed.

End AfterLoad.

(** ** The delegate *)

Section DelegateTheorems.
Context `{!PyBuiltins} `{!Toolkit} `{!SpinSeeding}.

(** X16. The editor of a string parameter is a line edit, and a line edit
    is also a [QWidget]: in [setModelData] the test for the check-box
    container comes first and finds no check box in it. So what is typed
    into the editor is never written to the item: [setModelData] leaves
    the widget as it is. *)
Theorem string_editor_saves_nothing
    (w : Widget) (item : nat) (it : Item) (typed : string) :
  items w !! item = Some it ->
  get_param_category (item_type it) = "str" ->
  createEditor w item Columns.VALUE = Some (QLineEdit EmptyString)
  /\ model_values (QLineEdit typed) = (PNone, EmptyString)
  /\ exists run,
       setModelData (QLineEdit typed) item Columns.VALUE = Some run
       /\ run w = (w, Ok tt).
Proof.
  intros Hit Hcat. repeat split.
  - unfold createEditor. cbn [Nat.eqb Columns.VALUE negb]. rewrite Hit.
    cbv zeta. change (item_text it Columns.TYPE) with (item_type it).
    now rewrite Hcat.
  - eexists. split; reflexivity.
Qed.

(** X17. What [setModelData] writes for the editor of an integer, float or
    boolean parameter is a value of the type of the category and its
    string form, and [on_item_changed] parses this text back into the same
    value (for an integer and a float, where [int] and [float] read back
    what [str] prints): a value committed through the delegate is not
    taken for an invalid edit. *)
Theorem editor_value_parses_back
    (w : Widget) (item : nat) (it : Item) (made editor : Editor) :
  items w !! item = Some it ->
  get_param_category (item_type it) <> "str" ->
  createEditor w item Columns.VALUE = Some made ->
  same_kind made editor ->
  reads_back (model_values editor).1 ->
  (model_values editor).1 <> PNone
  /\ (model_values editor).2 = py_str (model_values editor).1
  /\ parse_value (get_param_category (item_type it)) (model_values editor).2
     = Some (model_values editor).1
  /\ typed_as (get_param_category (item_type it)) (model_values editor).1.
Proof.
  intros Hit Hcat Hmade Hkind Hback.
  unfold createEditor in Hmade. cbn [Nat.eqb Columns.VALUE negb] in Hmade.
  rewrite Hit in Hmade. cbv zeta in Hmade.
  change (item_text it Columns.TYPE) with (item_type it) in Hmade.
  pose proof (get_param_category_range (item_type it)) as Hrange.
  cbn in Hrange.
  destruct Hrange as [Hc | [Hc | [Hc | [Hc | []]]]]; rewrite <- Hc in *;
    try congruence; cbn in Hmade; injection Hmade as <-;
    destruct editor as [v lo hi | v lo hi n | checked | text];
    try contradiction; cbn in Hback |- *.
  - unfold parse_value. cbn. rewrite Hback. now repeat split.
  - unfold parse_value. cbn. rewrite Hback. now repeat split.
  - destruct checked; now repeat split.
Qed.

(** X18. [setEditorData] checks the box of a boolean parameter exactly
    when [on_item_changed] would read the value of the item (the cached
    value or, without one, the text) as [True]; the state the box had does
    not matter, and a cached boolean is shown as it is. A line edit is
    never seeded: the test for the container comes before the test for the
    line edit, so the editor of a string parameter opens empty. *)
Theorem checkbox_seeding
    (w : Widget) (item : nat) (checked b : bool) (text : string) :
  let value := index_data (the_item w item) in
  setEditorData w (QWidget_QCheckBox checked) item Columns.VALUE
  = Some (Ok (QWidget_QCheckBox
                match parse_value "bool" (py_str value) with
                | Some (PBool b) => b
                | _ => false
                end))
  /\ seed_editor (QWidget_QCheckBox checked) (PBool b)
     = Ok (QWidget_QCheckBox b)
  /\ setEditorData w (QLineEdit text) item Columns.VALUE
     = Some (Ok (QLineEdit text)).
Proof.
  cbv zeta. unfold setEditorData, seed_editor.
  cbn [Nat.eqb Columns.VALUE negb isinstance findChild_QCheckBox setChecked].
  split; [| split; [now destruct b | reflexivity]].
  do 3 f_equal. unfold parse_value. cbn [String.eqb Ascii.eqb Bool.eqb].
  cbv zeta.
  destruct (in_words (lower (py_str (index_data (the_item w item)))) _);
    [reflexivity |].
  now destruct (in_words _ _).
Qed.
End DelegateTheorems.

(** ** The publisher *)

(** X19. Whatever messages the subscription receives, in whatever number
    and order, the node publishes one and the same command for each of
    them: the published commands never alternate. *)
Theorem sub_callback_sequence
    (default_command : Z)
    (msgs : list MissionCommandPublisher.MissionCommand)
    (self : MissionCommandPublisher.Node) :
  MissionCommandPublisher.published (receive_all default_command msgs self)
  = MissionCommandPublisher.published self
    ++ repeat (MissionCommandPublisher.mkMissionCommand
                 (if default_command =? 1 then 2 else 1))
              (length msgs).
Proof.
  revert self. induction msgs as [| msg msgs IH]; intros self.
  - cbn. now rewrite app_nil_r.
  - unfold receive_all in *. cbn [fold_left length repeat]. rewrite IH.
    unfold MissionCommandPublisher.sub_callback,
      MissionCommandPublisher.publish.
    cbn [MissionCommandPublisher.command].
    destruct (default_command =? 1);
      cbn [MissionCommandPublisher.published];
      now rewrite <- app_assoc.
Qed.

(** ** A widget that shows nothing *)

Section EmptyTree.
Context `{!PyBuiltins} `{!Toolkit}.

Lemma refresh_items_unindexed (updates : Dict) (l : list Item) :
  refresh_items ∅ updates l = (l, Ok tt).
Proof.
  induction updates as [| [k info] rest IH]; [reflexivity |].
  cbn [refresh_items]. now rewrite lookup_empty.
Qed.

(** X20. A widget with an empty tree and an empty index (a new widget, or
    one after a load that built nothing) is inert: a refresh completes
    without a change whatever its entries are, dictionaries or not; the
    edit handler does nothing for any item and column; and the delegate
    has no editor of its own for any index. *)
Theorem empty_tree_inert
    (w : Widget) (updates : Dict) (item column : nat) :
  items w = [] -> param_to_item w = ∅ ->
  update_parameter_values updates w = (set_updating false w, Ok tt)
  /\ on_item_changed item column w = (w, Ok tt)
  /\ createEditor w item column = None.
Proof.
  intros Hitems Hindex. split; [| split].
  - rewrite update_parameter_values_run. cbv zeta.
    rewrite Hindex, refresh_items_unindexed. cbn [fst snd updating_after].
    destruct w. cbn in *. now subst.
  - apply on_item_changed_inert. right.
    unfold the_item. now rewrite Hitems.
  - unfold createEditor. rewrite Hitems.
    now destruct (negb _).
Qed.
End EmptyTree.

(** ** Committing what a loader wrote *)

(** X21. The categorizer is a projection: a category is its own category.
    The names of Python's types fall where their values belong: [int],
    [float] and [bool] into the categories of these names, and
    [NoneType], [str], [list] and [dict] into [str]. *)
Theorem get_param_category_type_name (label : string) (value : PyVal) :
  get_param_category (get_param_category label) = get_param_category label
  /\ get_param_category (type_name value)
     = match value with
       | PInt _ => "int"
       | PFloat _ => "float"
       | PBool _ => "bool"
       | _ => "str"
       end.
Proof.
  split.
  - pose proof (get_param_category_range label) as Hrange. cbn in Hrange.
    destruct Hrange as [<- | [<- | [<- | [<- | []]]]]; reflexivity.
  - destruct value; reflexivity.
Qed.

Section CommitAfterLoad.
Context `{!PyBuiltins} `{!Toolkit}.

End CommitAfterLoad.

(** ** The further properties on examples *)

#[local] Existing Instance RefBuiltins.builtins.
#[local] Existing Instance RefBuiltins.every_write.




Lemma loaders_frame_witness :
  let mapping := [("a.b", PInt 1); ("c", PStr "on")] in
  parameters (set_yaml_parameters mapping Examples.speed_widget).1 = mapping
  /\ signals_blocked (set_yaml_parameters mapping Examples.speed_widget).1
     = false.
Proof.
  cbv zeta.
  destruct (loaders_frame "node" "other" [("a.b", PInt 1); ("c", PStr "on")]
              Examples.speed_widget)
    as ((_ & Hblocked) & (_ & Hsnapshot) & _).
  split; [| exact Hblocked].
  apply Hsnapshot. repeat constructor.
Defined.

Lemma loaders_index_witness :
  let w := (Examples.load_yaml
              [("a.b.x", PInt 1); ("a.b.y", PInt 2); ("a.c", PInt 3)]).1 in
  exists it, items w !! 4%nat = Some it /\ item_path it = Some "a.c".
Proof.
  cbv zeta.
  destruct (proj1 (proj2 (loaders_index "node"
                            [("a.b.x", PInt 1); ("a.b.y", PInt 2);
                             ("a.c", PInt 3)] init_widget "a.c" 4%nat)))
    as (it & Hit & Hpath & _).
  - vm_compute. reflexivity.
  - exists it. split; [exact Hit | exact Hpath].
Defined.

Lemma set_yaml_parameters_all_or_nothing_witness :
  let r := Examples.load_yaml [("a.c", PInt 3); ("a", PInt 1);
                               ("a.b", PInt 2)] in
  r.2 = Raise TypeError /\ items r.1 = [].
Proof.
  cbv zeta.
  destruct (proj2 (set_yaml_parameters_all_or_nothing
                     [("a.c", PInt 3); ("a", PInt 1); ("a.b", PInt 2)]
                     init_widget))
    as (Hraise & _ & Hitems & _).
  - vm_compute. discriminate.
  - split; [exact Hraise | exact Hitems].
Defined.


Lemma update_parameter_values_outcome_witness :
  let r := Examples.refresh [("speed", PInt 3)] Examples.speed_widget in
  r.2 = Raise AttributeError /\ updating r.1 = true
  /\ Examples.commit (Examples.typed_into r.1 "2.75")
     = (Examples.typed_into r.1 "2.75", Ok tt).
Proof.
  cbv zeta.
  destruct (update_parameter_values_outcome [("speed", PInt 3)]
              Examples.speed_widget)
    as (Hor & _ & _ & Hbad).
  assert (Hnot : (Examples.refresh [("speed", PInt 3)]
                                   Examples.speed_widget).2 <> Ok tt).
  { vm_compute. discriminate. }
  destruct (Hbad Hnot) as (Hup & _ & _).
  split; [destruct Hor as [Hok | Hraise]; [contradiction | exact Hraise] |].
  split; [exact Hup |].
  vm_compute. reflexivity.
Defined.



Lemma on_item_changed_raises_witness :
  (Examples.commit (Examples.typed_into Examples.speed_widget "fast")).2
  = Ok tt.
Proof.
  apply (on_item_changed_raises 0%nat Columns.VALUE
           (Examples.typed_into Examples.speed_widget "fast")).
  repeat constructor.
Defined.

Lemma on_item_changed_after_load_witness :
  let mapping := [("flag", PDict [("value", PBool true);
                                 ("type", PStr "bool")])] in
  (Examples.commit
     (Examples.refresh [("flag", PDict [])]
        (set_parameters "node" mapping init_widget).1).1).2 = Ok tt.
Proof.
  cbv zeta.
  apply (on_item_changed_after_load "node"
           [("flag", PDict [("value", PBool true); ("type", PStr "bool")])]
           [("flag", PDict [])] init_widget 0%nat Columns.VALUE).
  repeat constructor.
Defined.



Lemma string_editor_saves_nothing_witness :
  createEditor Examples.unnamed_str_widget 0%nat Columns.VALUE
  = Some (QLineEdit EmptyString)
  /\ model_values (QLineEdit "typed") = (PNone, EmptyString).
Proof.
  destruct (string_editor_saves_nothing Examples.unnamed_str_widget 0%nat
              (the_item Examples.unnamed_str_widget 0%nat) "typed")
    as (Hmade & Hvalues & _).
  - reflexivity.
  - reflexivity.
  - split; [exact Hmade | exact Hvalues].
Defined.

Lemma editor_value_parses_back_witness :
  let editor :=
    QDoubleSpinBox Examples.float_2_75 float_minus_1e6 float_1e6 4%nat in
  parse_value "float" (model_values editor).2
  = Some (PFloat Examples.float_2_75).
Proof.
  cbv zeta.
  refine (proj1 (proj2 (proj2
            (editor_value_parses_back Examples.speed_widget 0%nat
               (the_item Examples.speed_widget 0%nat)
               (QDoubleSpinBox (S754_zero false) float_minus_1e6 float_1e6
                               4%nat)
               (QDoubleSpinBox Examples.float_2_75 float_minus_1e6 float_1e6
                               4%nat) _ _ _ _ _)))).
  - reflexivity.
  - vm_compute. discriminate.
  - reflexivity.
  - repeat split.
  - vm_compute. reflexivity.
Defined.

Lemma empty_tree_inert_witness :
  Examples.refresh [("speed", PInt 3)] init_widget = (init_widget, Ok tt)
  /\ createEditor init_widget 0%nat Columns.VALUE = None.
Proof.
  destruct (empty_tree_inert init_widget [("speed", PInt 3)] 0%nat
              Columns.VALUE eq_refl eq_refl)
    as (Hrefresh & _ & Heditor).
  split; [exact Hrefresh | exact Heditor].
Defined.

